(** * Witrium client: status model, wire naming, polling engine, session scope

    A shallow embedding of [src/constants.ts] and [src/client.ts].

    - Status codes travel as strings; [STATUS_NAMES] is a JavaScript object
      literal, so a property read also reaches [Object.prototype].
    - The client runs against a remote service and a wall clock.  Both are
      made explicit: a [World] carries the client's private slot
      [_activeSessionId], the clock, the scripted service and the history of
      everything the client did (requests, sleeps, callback invocations).
    - The two polling loops are [while] loops over wall-clock time; they are
      written with a fuel argument and the outcome [Diverge] stands for a
      loop that is still running when the fuel is spent. *)

From Stdlib Require Import ZArith Lia String Ascii List.
From stdpp Require Import base option list strings gmap.

Set Warnings "-register-all".
Local Open Scope string_scope.
Local Open Scope Z_scope.
Local Open Scope list_scope.

(* ===================================================================== *)
(** ** JavaScript values that the status lookup can produce *)
(* ===================================================================== *)

(** A property read on an object literal yields the own property when there
    is one, otherwise the member of [Object.prototype] with that name,
    otherwise [undefined]. *)
Inductive Value :=
  | VUndefined
  | VString (s : string)
  | VBuiltin (key : string).

(** The property names every object literal inherits from
    [Object.prototype]. *)
Definition OBJECT_PROTOTYPE_KEYS : list string :=
  [ "constructor"; "hasOwnProperty"; "isPrototypeOf"; "propertyIsEnumerable";
    "toLocaleString"; "toString"; "valueOf"; "__proto__";
    "__defineGetter__"; "__defineSetter__"; "__lookupGetter__";
    "__lookupSetter__" ].

(** [xs.includes(x)] on an array of strings. *)
Definition includes (xs : list string) (x : string) : bool :=
  bool_decide (x ∈ xs).

(** [obj[key]] for an object literal with string-valued own properties. *)
Definition get_property (own : gmap string string) (key : string) : Value :=
  match own !! key with
  | Some v => VString v
  | None => if includes OBJECT_PROTOTYPE_KEYS key then VBuiltin key
            else VUndefined
  end.

(** JavaScript truthiness, as used by [||]. *)
Definition truthy (v : Value) : bool :=
  match v with
  | VUndefined => false
  | VString s => negb (String.eqb s "")
  | VBuiltin _ => true
  end.

(** [a || b] *)
Definition js_or (a b : Value) : Value := if truthy a then a else b.

(* ===================================================================== *)
(** ** constants.ts *)
(* ===================================================================== *)

Module WorkflowRunStatus.

Definition PENDING : string := "P".
Definition RUNNING : string := "R".
Definition COMPLETED : string := "C".
Definition FAILED : string := "F".
Definition CANCELLED : string := "X".

Definition TERMINAL_STATUSES : list string := ["C"; "F"; "X"].

Definition STATUS_NAMES : gmap string string :=
  <["P" := "pending"]> (<["R" := "running"]> (<["C" := "completed"]>
    (<["F" := "failed"]> (<["X" := "cancelled"]> ∅)))).

(** [return this.STATUS_NAMES[statusCode] || statusCode;] *)
Definition getStatusName (statusCode : string) : Value :=
  js_or (get_property STATUS_NAMES statusCode) (VString statusCode).

End WorkflowRunStatus.

Module AgentExecutionStatus.

Definition PENDING : string := "P".
Definition RUNNING : string := "R".
Definition COMPLETED : string := "C".
Definition FAILED : string := "F".
Definition CANCELLED : string := "X".

End AgentExecutionStatus.

(** The five codes of the wire contract. *)
Definition WIRE_CODES : list string := ["P"; "R"; "C"; "F"; "X"].

(* ===================================================================== *)
(** ** Field-name translation at the wire boundary *)
(* ===================================================================== *)

Definition is_lower (c : ascii) : bool :=
  let n := nat_of_ascii c in (97 <=? n)%nat && (n <=? 122)%nat.

Definition is_upper (c : ascii) : bool :=
  let n := nat_of_ascii c in (65 <=? n)%nat && (n <=? 90)%nat.

(** [letter.toUpperCase()] for a letter matched by [[a-z]]. *)
Definition toUpperCase (c : ascii) : ascii :=
  if is_lower c then ascii_of_nat (nat_of_ascii c - 32) else c.

Definition toLowerCase (c : ascii) : ascii :=
  if is_upper c then ascii_of_nat (nat_of_ascii c + 32) else c.

Definition underscore : ascii := "_"%char.

(** [str.replace(/_([a-z])/g, (_, letter) => letter.toUpperCase())]:
    a left-to-right scan; an underscore directly followed by a lower-case
    letter is replaced, together with that letter, by the upper-case letter,
    and the scan resumes after the match. *)
Fixpoint _toCamelCase (str : string) : string :=
  match str with
  | EmptyString => EmptyString
  | String c rest =>
      if Ascii.eqb c underscore then
        match rest with
        | String d rest' =>
            if is_lower d then String (toUpperCase d) (_toCamelCase rest')
            else String c (_toCamelCase rest)
        | EmptyString => String c EmptyString
        end
      else String c (_toCamelCase rest)
  end.

(** The convention the hand-written request payloads follow: every
    upper-case letter of the in-memory name becomes an underscore and the
    lower-case letter.  The client has no function for this direction; it
    spells the wire names out (see [REQUEST_FIELDS]). *)
Fixpoint toSnakeCase (str : string) : string :=
  match str with
  | EmptyString => EmptyString
  | String c rest =>
      if is_upper c then String underscore (String (toLowerCase c) (toSnakeCase rest))
      else String c (toSnakeCase rest)
  end.

(** No upper-case letter occurs: the shape of a wire-level name. *)
Fixpoint no_upper (str : string) : bool :=
  match str with
  | EmptyString => true
  | String c rest => negb (is_upper c) && no_upper rest
  end.

(** No underscore is directly followed by a lower-case letter: the shape of
    an in-memory name (a name [_toCamelCase] leaves alone). *)
Fixpoint no_snake_joint (str : string) : bool :=
  match str with
  | EmptyString => true
  | String c rest =>
      match rest with
      | String d _ => negb (Ascii.eqb c underscore && is_lower d)
      | EmptyString => true
      end && no_snake_joint rest
  end.




(* ===================================================================== *)
(** ** Documents and the key transformation of responses *)
(* ===================================================================== *)

(** A parsed response body.  An object is kept as its list of own
    properties in insertion order. *)
Inductive Json :=
  | JNull
  | JBool (b : bool)
  | JNumber (n : Z)
  | JString (s : string)
  | JArray (items : list Json)
  | JObject (fields : list (string * Json)).

(** [transformed[key] = value]: overwrite in place or append. *)
Fixpoint set_field (key : string) (value : Json) (fields : list (string * Json))
  : list (string * Json) :=
  match fields with
  | [] => [(key, value)]
  | (k, v) :: rest =>
      if String.eqb k key then (k, value) :: rest
      else (k, v) :: set_field key value rest
  end.

Fixpoint _transformKeysToCamelCase (obj : Json) : Json :=
  match obj with
  | JArray items => JArray (List.map _transformKeysToCamelCase items)
  | JObject fields =>
      let fix each (todo transformed : list (string * Json)) :=
        match todo with
        | [] => transformed
        | (key, value) :: todo' =>
            each todo' (set_field (_toCamelCase key)
                                  (_transformKeysToCamelCase value) transformed)
        end in
      JObject (each fields [])
  | _ => obj
  end.

Definition field_names (obj : Json) : list string :=
  match obj with
  | JObject fields => fst <$> fields
  | _ => []
  end.

(* ===================================================================== *)
(** ** types.ts *)
(* ===================================================================== *)

Module AgentExecution.
Record t := {
  status : string;
  instructionOrder : Z;
  instruction : string;
  result : option Json;
  resultFormat : option string;
  errorMessage : option string }.
End AgentExecution.

Record WorkflowRunOptions := {
  args : option Json;
  files : option Json;
  useStates : option (list string);
  preserveState : option string;
  noIntelligence : option bool;
  recordSession : option bool;
  browserSessionId : option string;
  skipGotoUrlInstruction : option bool }.

Module TalentRunOptions.
Record t := {
  args : option Json;
  files : option Json;
  useStates : option (list string);
  preserveState : option string;
  browserSessionId : option string }.
End TalentRunOptions.

Module WaitUntilStateOptions.
Record t := {
  allInstructionsExecuted : option bool;
  minWaitTime : option Z;
  pollingInterval : option Z;
  timeout : option Z }.
End WaitUntilStateOptions.

Record WorkflowRunSubmitted := {
  submitted_workflowId : string;
  runId : string;
  submitted_status : string }.

Record WorkflowRunResult := {
  workflowId : string;
  result_runId : string;
  status : string;
  startedAt : option string;
  completedAt : option string;
  message : option string;
  executions : option (list AgentExecution.t);
  result : option Json;
  resultFormat : option string;
  errorMessage : option string }.

Module BrowserSessionCreateOptions.
Record t := {
  provider : option string;
  useProxy : option bool;
  proxyCountry : option string;
  proxyCity : option string;
  useStates : option (list string) }.
End BrowserSessionCreateOptions.

Record BrowserSession := {
  uuid : string;
  provider : string;
  session_status : string;
  isBusy : bool;
  userManaged : bool;
  currentRunType : option string;
  currentRunId : option string;
  createdAt : string;
  session_startedAt : option string;
  lastActivityAt : option string;
  proxyCountry : option string;
  proxyCity : option string }.

Record ListBrowserSession := {
  sessions : list BrowserSession;
  totalCount : Z }.

Record CloseBrowserSession := {
  close_status : string;
  close_message : string }.

(** [WorkflowRun] and [TalentRunResult] are only passed through by
    [cancelRun] and [runTalent]; they stay documents. *)
Definition WorkflowRun := Json.
Definition TalentRunResult := Json.

(** The outcome of a synchronous user callback. *)
Inductive Completion :=
  | Returns
  | Raises (reason : string).

Module RunWorkflowAndWaitOptions.
Record t := {
  run : WorkflowRunOptions;
  pollingInterval : option Z;
  timeout : option Z;
  returnIntermediateResults : option bool;
  onProgress : option (WorkflowRunResult -> Completion) }.
End RunWorkflowAndWaitOptions.

(* ===================================================================== *)
(** ** errors.ts and message texts *)
(* ===================================================================== *)

(** What a failed request (an Axios error) carries: the response when the
    server answered, as its status code and the detail that
    [_extractErrorDetail] reads from its body ([data.detail], or the body
    as JSON text), and the transport's own message. *)
Record HttpError := {
  response : option (Z * string);
  error_message : string }.

(** A message is kept as the pieces of its template literal.  Numbers and
    non-string values are kept as values, not rendered. *)
Inductive Piece :=
  | Lit (s : string)
  | Shown (v : Value)
  | StatusCode (code : option Z)
  | Seconds (milliseconds : Z).

Definition Message := list Piece.

Inductive Exception :=
  | WitriumClientException (message : Message)
  | CallbackError (reason : string).

(** [_extractErrorDetail] *)
Definition _extractErrorDetail (error : HttpError) : string :=
  match response error with
  | Some (_, detail) => detail
  | None => if String.eqb (error_message error) "" then "Unknown error"
            else error_message error
  end.

(** The [catch] block shared by every request method. *)
Definition request_failed (what : string) (error : HttpError) : Exception :=
  WitriumClientException
    [ Lit what; Lit (_extractErrorDetail error); Lit " (Status code: ";
      StatusCode (fst <$> response error); Lit ")" ].

(* ===================================================================== *)
(** ** The world the client runs in *)
(* ===================================================================== *)

Abbreviation Payload := (gmap string Json).

(** One entry per thing the client did, oldest first. *)
Inductive Event :=
  | RanWorkflow (workflowId : string) (payload : Payload)
                (reply : HttpError + WorkflowRunSubmitted)
  | Fetched (runId : string) (reply : HttpError + WorkflowRunResult)
  | Cancelled (runId : string) (reply : HttpError + WorkflowRun)
  | RanTalent (talentId : string) (payload : Payload)
              (reply : HttpError + TalentRunResult)
  | CreatedSession (payload : Payload) (reply : HttpError + BrowserSession)
  | ListedSessions (reply : HttpError + ListBrowserSession)
  | GotSession (sessionUuid : string) (reply : HttpError + BrowserSession)
  | ClosedSession (sessionUuid : string) (force : bool)
                  (reply : HttpError + CloseBrowserSession)
  | Slept (milliseconds : Z)
  | Progress (results : WorkflowRunResult).

(** The remote service and the timers, scripted by the number of
    suspension points passed so far.  A reply is the response body after
    [_transformKeysToCamelCase], at the type the method declares. *)
Record Remote := {
  latency : nat -> N;
  timer : nat -> Z -> N;
  serve_run : nat -> string -> Payload -> HttpError + WorkflowRunSubmitted;
  serve_results : nat -> string -> HttpError + WorkflowRunResult;
  serve_cancel : nat -> string -> HttpError + WorkflowRun;
  serve_talent : nat -> string -> Payload -> HttpError + TalentRunResult;
  serve_create : nat -> Payload -> HttpError + BrowserSession;
  serve_list : nat -> HttpError + ListBrowserSession;
  serve_get : nat -> string -> HttpError + BrowserSession;
  serve_close : nat -> string -> bool -> HttpError + CloseBrowserSession }.

(** The client instance ([_activeSessionId]) together with what it runs
    against: the wall clock in whole milliseconds ([Date.now()]), the number
    of suspension points ([await]s on a request or a timer) passed, the
    history, and the service.  One flow of control runs at a time; nothing
    else touches the slot while the client is suspended. *)
Record World := {
  _activeSessionId : option string;
  now : Z;
  suspensions : nat;
  history : list Event;
  remote : Remote }.

(** [new WitriumClient(apiToken)] at time [t] against service [r]. *)
Definition new_client (r : Remote) (t : Z) : World :=
  {| _activeSessionId := None; now := t; suspensions := 0;
     history := []; remote := r |}.

(** How an [async] method ends: it resolves, it rejects, or (for the
    polling loops only) it is still looping when the fuel is spent. *)
Inductive Outcome (A : Type) :=
  | Return (a : A)
  | Throw (e : Exception)
  | Diverge.
Arguments Return {A} a.
Arguments Throw {A} e.
Arguments Diverge {A}.

Definition M (A : Type) : Type := World -> Outcome A * World.

Definition ret {A} (a : A) : M A := fun w => (Return a, w).
Definition throw {A} (e : Exception) : M A := fun w => (Throw e, w).
Definition bind {A B} (m : M A) (k : A -> M B) : M B :=
  fun w =>
    match m w with
    | (Return a, w') => k a w'
    | (Throw e, w') => (Throw e, w')
    | (Diverge, w') => (Diverge, w')
    end.

Notation "'let*' x ':=' m 'in' k" := (bind m (fun x => k))
  (at level 10, x name, m at level 100, k at level 200, only parsing).
Notation "m ';;' k" := (bind m (fun _ => k))
  (at level 100, k at level 200, right associativity, only parsing).

(** [try { body } catch { handler }] *)
Definition try_catch {A} (body : M A) (handler : Exception -> M A) : M A :=
  fun w =>
    match body w with
    | (Throw e, w') => handler e w'
    | ended => ended
    end.

(** [try { body } finally { cleanup }]: the cleanup runs after a return and
    after a throw; its own throw replaces the outcome of the body. *)
Definition try_finally {A} (body : M A) (cleanup : M unit) : M A :=
  fun w =>
    match body w with
    | (Diverge, w') => (Diverge, w')
    | (out, w') =>
        match cleanup w' with
        | (Return _, w'') => (out, w'')
        | (Throw e, w'') => (Throw e, w'')
        | (Diverge, w'') => (Diverge, w'')
        end
    end.

(** After one more suspension point that took [elapsed] and left [ev]. *)
Definition resume (elapsed : N) (ev : Event) (w : World) : World :=
  {| _activeSessionId := _activeSessionId w;
     now := now w + Z.of_N elapsed;
     suspensions := S (suspensions w);
     history := history w ++ [ev];
     remote := remote w |}.

(** One request method: [try { response = await this.client...; return
    transformed data } catch (error) { throw new WitriumClientException }]. *)
Definition request {A} (what : string)
    (serve : Remote -> nat -> HttpError + A)
    (ev : HttpError + A -> Event) : M A :=
  fun w =>
    let reply := serve (remote w) (suspensions w) in
    let w' := resume (latency (remote w) (suspensions w)) (ev reply) w in
    match reply with
    | inr data => (Return data, w')
    | inl error => (Throw (request_failed what error), w')
    end.

(** [await new Promise((resolve) => setTimeout(resolve, ms))] *)
Definition sleep (ms : Z) : M unit :=
  fun w => (Return tt, resume (timer (remote w) (suspensions w) ms) (Slept ms) w).

(** [Date.now()] *)
Definition Date_now : M Z := fun w => (Return (now w), w).

Definition read_activeSessionId : M (option string) :=
  fun w => (Return (_activeSessionId w), w).

Definition write_activeSessionId (v : option string) : M unit :=
  fun w => (Return tt,
            {| _activeSessionId := v; now := now w;
               suspensions := suspensions w; history := history w;
               remote := remote w |}).

(** [a ?? b] *)
Definition nullish {A} (a b : option A) : option A :=
  match a with
  | Some x => Some x
  | None => b
  end.

(** [if (value !== undefined) payload[key] = value;] *)
Definition assign {A} (key : string) (encode : A -> Json) (value : option A)
    (payload : Payload) : Payload :=
  match value with
  | Some v => <[key := encode v]> payload
  | None => payload
  end.

Definition JStrings (l : list string) : Json := JArray (JString <$> l).

(* ===================================================================== *)
(** ** client.ts *)
(* ===================================================================== *)

(** [get sessionId()] *)
Definition sessionId : M (option string) := read_activeSessionId.

Definition runWorkflow_payload (options : WorkflowRunOptions)
    (browserSessionId : option string) : Payload :=
  assign "skip_goto_url_instruction" JBool (skipGotoUrlInstruction options)
  (assign "browser_session_id" JString browserSessionId
  (assign "record_session" JBool (recordSession options)
  (assign "no_intelligence" JBool (noIntelligence options)
  (assign "preserve_state" JString (preserveState options)
  (assign "use_states" JStrings (useStates options)
  (assign "files" id (files options)
  (assign "args" id (args options) ∅))))))).

Definition runWorkflow (workflowId : string) (options : WorkflowRunOptions)
  : M WorkflowRunSubmitted :=
  let* active := read_activeSessionId in
  let browserSessionId_ := nullish (browserSessionId options) active in
  let payload := runWorkflow_payload options browserSessionId_ in
  request "Error running workflow: "
          (fun r n => serve_run r n workflowId payload)
          (RanWorkflow workflowId payload).

Definition getWorkflowResults (runId : string) : M WorkflowRunResult :=
  request "Error getting workflow results: "
          (fun r n => serve_results r n runId) (Fetched runId).

Definition cancelRun (runId : string) : M WorkflowRun :=
  request "Error cancelling workflow run: "
          (fun r n => serve_cancel r n runId) (Cancelled runId).

Definition runTalent_payload (options : TalentRunOptions.t)
    (browserSessionId : option string) : Payload :=
  assign "browser_session_id" JString browserSessionId
  (assign "preserve_state" JString (TalentRunOptions.preserveState options)
  (assign "use_states" JStrings (TalentRunOptions.useStates options)
  (assign "files" id (TalentRunOptions.files options)
  (assign "args" id (TalentRunOptions.args options) ∅)))).

Definition runTalent (talentId : string) (options : TalentRunOptions.t)
  : M TalentRunResult :=
  let* active := read_activeSessionId in
  let browserSessionId_ :=
    nullish (TalentRunOptions.browserSessionId options) active in
  let payload := runTalent_payload options browserSessionId_ in
  request "Error running talent: "
          (fun r n => serve_talent r n talentId payload)
          (RanTalent talentId payload).

Definition createBrowserSession_payload
    (options : BrowserSessionCreateOptions.t) : Payload :=
  assign "use_states" JStrings (BrowserSessionCreateOptions.useStates options)
  (assign "proxy_city" JString (BrowserSessionCreateOptions.proxyCity options)
  (assign "proxy_country" JString (BrowserSessionCreateOptions.proxyCountry options)
  (assign "use_proxy" JBool (BrowserSessionCreateOptions.useProxy options)
  (assign "provider" JString (BrowserSessionCreateOptions.provider options) ∅)))).

Definition createBrowserSession (options : BrowserSessionCreateOptions.t)
  : M BrowserSession :=
  let payload := createBrowserSession_payload options in
  request "Error creating browser session: "
          (fun r n => serve_create r n payload) (CreatedSession payload).

Definition listBrowserSessions : M ListBrowserSession :=
  request "Error listing browser sessions: "
          (fun r n => serve_list r n) ListedSessions.

Definition getBrowserSession (sessionUuid : string) : M BrowserSession :=
  request "Error getting browser session: "
          (fun r n => serve_get r n sessionUuid) (GotSession sessionUuid).

Definition closeBrowserSession (sessionUuid : string) (force : bool)
  : M CloseBrowserSession :=
  request "Error closing browser session: "
          (fun r n => serve_close r n sessionUuid force)
          (ClosedSession sessionUuid force).

(** The synchronous [onProgress(results)] call.  Without the option the
    default [() => {}] runs. *)
Definition call_onProgress (onProgress : option (WorkflowRunResult -> Completion))
    (results : WorkflowRunResult) : M unit :=
  match onProgress with
  | None => ret tt
  | Some callback =>
      fun w =>
        let w' := {| _activeSessionId := _activeSessionId w; now := now w;
                     suspensions := suspensions w;
                     history := history w ++ [Progress results];
                     remote := remote w |} in
        match callback results with
        | Returns => (Return tt, w')
        | Raises reason => (Throw (CallbackError reason), w')
        end
  end.

(** What [runWorkflowAndWait] resolves to. *)
Inductive RunResults :=
  | Single (results : WorkflowRunResult)
  | Sequence (intermediateResults : list WorkflowRunResult).

Definition is_terminal (statusCode : string) : bool :=
  includes WorkflowRunStatus.TERMINAL_STATUSES statusCode.

(** The [while] loop of [runWorkflowAndWait]; [None] when the loop condition
    fails, [Some v] for the [return v] inside the body. *)
Fixpoint runWorkflowAndWait_loop (fuel : nat) (runId : string)
    (returnIntermediateResults : bool)
    (onProgress : option (WorkflowRunResult -> Completion))
    (pollingInterval timeout startTime : Z)
    (intermediateResults : list WorkflowRunResult) : M (option RunResults) :=
  fun w =>
    if now w - startTime <? timeout then
      match fuel with
      | O => (Diverge, w)
      | S fuel' =>
          (let* results := getWorkflowResults runId in
           let intermediateResults' :=
             if returnIntermediateResults then intermediateResults ++ [results]
             else intermediateResults in
           call_onProgress onProgress results ;;
           if is_terminal (status results) then
             ret (Some (if returnIntermediateResults
                        then Sequence intermediateResults'
                        else Single results))
           else
             sleep pollingInterval ;;
             runWorkflowAndWait_loop fuel' runId returnIntermediateResults
               onProgress pollingInterval timeout startTime
               intermediateResults') w
      end
    else (Return None, w).

Definition runWorkflowAndWait_timeout (timeout : Z) : Exception :=
  WitriumClientException
    [ Lit "Workflow execution timed out after "; Seconds timeout;
      Lit " seconds" ].

Definition runWorkflowAndWait (fuel : nat) (workflowId : string)
    (options : RunWorkflowAndWaitOptions.t) : M RunResults :=
  let timeout := default 300000 (RunWorkflowAndWaitOptions.timeout options) in
  let pollingInterval :=
    default 5000 (RunWorkflowAndWaitOptions.pollingInterval options) in
  let returnIntermediateResults :=
    default false (RunWorkflowAndWaitOptions.returnIntermediateResults options) in
  let onProgress := RunWorkflowAndWaitOptions.onProgress options in
  let* runResponse :=
    runWorkflow workflowId (RunWorkflowAndWaitOptions.run options) in
  let* startTime := Date_now in
  let* finished :=
    runWorkflowAndWait_loop fuel (runId runResponse) returnIntermediateResults
      onProgress pollingInterval timeout startTime [] in
  match finished with
  | Some v => ret v
  | None => throw (runWorkflowAndWait_timeout timeout)
  end.

Definition checkAllExecutionsCompleted (results : WorkflowRunResult) : bool :=
  match executions results with
  | None => false
  | Some steps =>
      match list.last steps with
      | None => false
      | Some step =>
          String.eqb (AgentExecution.status step) AgentExecutionStatus.COMPLETED
      end
  end.

Definition terminal_mismatch (observed targetStatus : string) : Exception :=
  WitriumClientException
    [ Lit "Workflow run reached terminal status '";
      Shown (WorkflowRunStatus.getStatusName observed);
      Lit "' before reaching target status '";
      Shown (WorkflowRunStatus.getStatusName targetStatus);
      Lit "'" ].

Definition waitUntilState_timeout (targetStatus : string)
    (allInstructionsExecuted : bool) (timeout : Z) : Exception :=
  let conditionMsg :=
    [ Lit "status '"; Shown (WorkflowRunStatus.getStatusName targetStatus);
      Lit "'" ] ++
    (if allInstructionsExecuted then [ Lit " and all instructions executed" ]
     else []) in
  WitriumClientException
    ([ Lit "Workflow run did not reach " ] ++ conditionMsg ++
     [ Lit " within "; Seconds timeout; Lit " seconds" ]).

(** The two tests of the loop body of [waitUntilState]. *)
Definition reached (targetStatus : string) (allInstructionsExecuted : bool)
    (results : WorkflowRunResult) : bool :=
  let statusReached := String.eqb (status results) targetStatus in
  let allExecutionsDone :=
    negb allInstructionsExecuted || checkAllExecutionsCompleted results in
  statusReached && allExecutionsDone.

Definition mismatched (targetStatus : string) (results : WorkflowRunResult)
  : bool :=
  is_terminal (status results) && negb (String.eqb (status results) targetStatus).

(** The [while] loop of [waitUntilState]. *)
Fixpoint waitUntilState_loop (fuel : nat) (runId targetStatus : string)
    (allInstructionsExecuted : bool)
    (pollingInterval timeout startTime : Z) : M (option WorkflowRunResult) :=
  fun w =>
    if now w - startTime <? timeout then
      match fuel with
      | O => (Diverge, w)
      | S fuel' =>
          (let* results := getWorkflowResults runId in
           if reached targetStatus allInstructionsExecuted results then
             ret (Some results)
           else if mismatched targetStatus results then
             throw (terminal_mismatch (status results) targetStatus)
           else
             sleep pollingInterval ;;
             waitUntilState_loop fuel' runId targetStatus
               allInstructionsExecuted pollingInterval timeout startTime) w
      end
    else (Return None, w).

Definition waitUntilState (fuel : nat) (runId targetStatus : string)
    (options : WaitUntilStateOptions.t) : M WorkflowRunResult :=
  let allInstructionsExecuted :=
    default false (WaitUntilStateOptions.allInstructionsExecuted options) in
  let minWaitTime := default 0 (WaitUntilStateOptions.minWaitTime options) in
  let pollingInterval :=
    default 2000 (WaitUntilStateOptions.pollingInterval options) in
  let timeout := default 60000 (WaitUntilStateOptions.timeout options) in
  (if 0 <? minWaitTime then sleep minWaitTime else ret tt) ;;
  let* startTime := Date_now in
  let* finished :=
    waitUntilState_loop fuel runId targetStatus allInstructionsExecuted
      pollingInterval timeout startTime in
  match finished with
  | Some results => ret results
  | None =>
      throw (waitUntilState_timeout targetStatus allInstructionsExecuted timeout)
  end.

Definition withBrowserSession {T} (callback : string -> M T)
    (options : BrowserSessionCreateOptions.t) : M T :=
  let* session := createBrowserSession options in
  let* previousSessionId := read_activeSessionId in
  write_activeSessionId (Some (uuid session)) ;;
  try_finally
    (callback (uuid session))
    (write_activeSessionId previousSessionId ;;
     try_catch (closeBrowserSession (uuid session) true ;; ret tt)
               (fun _ => ret tt)).

(* ===================================================================== *)
(** ** Reading a history *)
(* ===================================================================== *)

(** The replies to the result fetches, in order. *)
Definition fetch_replies (evs : list Event)
  : list (HttpError + WorkflowRunResult) :=
  omap (fun ev => match ev with Fetched _ reply => Some reply | _ => None end) evs.

(** The snapshots that were fetched, in order. *)
Definition fetched_results (evs : list Event) : list WorkflowRunResult :=
  omap (fun ev => match ev with Fetched _ (inr r) => Some r | _ => None end) evs.


(** The sleeps, in order. *)
Definition sleeps (evs : list Event) : list Z :=
  omap (fun ev => match ev with Slept ms => Some ms | _ => None end) evs.

(** What one call of [onProgress] leaves in the history. *)
Definition notified (onProgress : option (WorkflowRunResult -> Completion))
    (r : WorkflowRunResult) : list Event :=
  match onProgress with
  | Some _ => [Progress r]
  | None => []
  end.

(** The history of complete loop rounds: fetch, callback, sleep. *)
Fixpoint rounds (onProgress : option (WorkflowRunResult -> Completion))
    (runId : string) (pollingInterval : Z) (snapshots : list WorkflowRunResult)
  : list Event :=
  match snapshots with
  | [] => []
  | r :: rest =>
      Fetched runId (inr r) :: notified onProgress r ++
      Slept pollingInterval :: rounds onProgress runId pollingInterval rest
  end.

(** The ways the loop of [waitUntilState] stops, each with the events of
    its last, incomplete round and the world it stops in. *)
Inductive waitUntilState_ending (runId targetStatus : string)
    (allInstructionsExecuted : bool) (timeout startTime : Z) (fuel : nat)
    (snapshots : list WorkflowRunResult)
  : Outcome (option WorkflowRunResult) -> list Event -> World -> Prop :=
  | wait_reached r w :
      reached targetStatus allInstructionsExecuted r = true ->
      waitUntilState_ending runId targetStatus allInstructionsExecuted timeout
        startTime fuel snapshots (Return (Some r)) [Fetched runId (inr r)] w
  | wait_mismatched r w :
      reached targetStatus allInstructionsExecuted r = false ->
      mismatched targetStatus r = true ->
      waitUntilState_ending runId targetStatus allInstructionsExecuted timeout
        startTime fuel snapshots
        (Throw (terminal_mismatch (status r) targetStatus))
        [Fetched runId (inr r)] w
  | wait_fetch_failed error w :
      waitUntilState_ending runId targetStatus allInstructionsExecuted timeout
        startTime fuel snapshots
        (Throw (request_failed "Error getting workflow results: " error))
        [Fetched runId (inl error)] w
  | wait_timed_out w :
      timeout <= now w - startTime ->
      waitUntilState_ending runId targetStatus allInstructionsExecuted timeout
        startTime fuel snapshots (Return None) [] w
  | wait_out_of_fuel w :
      now w - startTime < timeout ->
      length snapshots = fuel ->
      waitUntilState_ending runId targetStatus allInstructionsExecuted timeout
        startTime fuel snapshots Diverge [] w.

(** A snapshot after which [waitUntilState] sleeps and goes round again. *)
Definition keeps_waiting (targetStatus : string) (allInstructionsExecuted : bool)
    (r : WorkflowRunResult) : Prop :=
  reached targetStatus allInstructionsExecuted r = false ∧
  mismatched targetStatus r = false.

(** What a computation leaves in the history, and how it ends. *)
Definition events_of {A} (m : M A) (w : World) : list Event :=
  drop (length (history w)) (history (m w).2).

Definition outcome_of {A} (m : M A) (w : World) : Outcome A := (m w).1.

Definition world_after {A} (m : M A) (w : World) : World := (m w).2.

(** The world in which [waitUntilState] records [startTime]. *)
Definition after_minWaitTime (minWaitTime : Z) (w : World) : World :=
  if 0 <? minWaitTime
  then resume (timer (remote w) (suspensions w) minWaitTime) (Slept minWaitTime) w
  else w.

Definition minWaitTime_events (minWaitTime : Z) : list Event :=
  if 0 <? minWaitTime then [Slept minWaitTime] else [].

(** What [waitUntilState] makes of the way its loop stopped. *)
Definition waitUntilState_result (targetStatus : string)
    (allInstructionsExecuted : bool) (timeout : Z)
    (stopped : Outcome (option WorkflowRunResult)) : Outcome WorkflowRunResult :=
  match stopped with
  | Return (Some results) => Return results
  | Return None =>
      Throw (waitUntilState_timeout targetStatus allInstructionsExecuted timeout)
  | Throw e => Throw e
  | Diverge => Diverge
  end.

(* ===================================================================== *)
(** ** A scripted service, for running the client on concrete inputs *)
(* ===================================================================== *)

Definition step (statusCode : string) : AgentExecution.t :=
  {| AgentExecution.status := statusCode; AgentExecution.instructionOrder := 0;
     AgentExecution.instruction := "open page"; AgentExecution.result := None;
     AgentExecution.resultFormat := None; AgentExecution.errorMessage := None |}.

Definition snapshot (statusCode : string) (steps : option (list AgentExecution.t))
  : WorkflowRunResult :=
  {| workflowId := "wf"; result_runId := "r1"; status := statusCode;
     startedAt := None; completedAt := None; message := None;
     executions := steps; result := None; resultFormat := None;
     errorMessage := None |}.

Definition session (id : string) : BrowserSession :=
  {| uuid := id; provider := "witrium"; session_status := "active";
     isBusy := false; userManaged := false; currentRunType := None;
     currentRunId := None; createdAt := "2025-01-01T00:00:00Z";
     session_startedAt := None; lastActivityAt := None;
     proxyCountry := None; proxyCity := None |}.

Definition unavailable : HttpError :=
  {| response := Some (503, "service unavailable"); error_message := "" |}.

(** Every request takes [lat] milliseconds and every timer fires on time;
    the [n]-th suspension point sees the snapshot [script n]; sessions are
    named after the suspension point that created them; closing a session
    fails. *)
Definition scripted (lat : N) (script : nat -> WorkflowRunResult) : Remote :=
  {| latency := fun _ => lat;
     timer := fun _ ms => Z.to_N ms;
     serve_run := fun _ workflowId _ =>
       inr {| submitted_workflowId := workflowId; runId := "r1";
              submitted_status := "P" |};
     serve_results := fun n _ => inr (script n);
     serve_cancel := fun _ _ => inl unavailable;
     serve_talent := fun _ _ _ => inl unavailable;
     serve_create := fun n _ =>
       inr (session (if Nat.eqb n 0 then "outer" else "inner"));
     serve_list := fun _ => inl unavailable;
     serve_get := fun _ _ => inl unavailable;
     serve_close := fun _ _ _ => inl unavailable |}.

Definition no_wait_options : WaitUntilStateOptions.t :=
  {| WaitUntilStateOptions.allInstructionsExecuted := None;
     WaitUntilStateOptions.minWaitTime := None;
     WaitUntilStateOptions.pollingInterval := None;
     WaitUntilStateOptions.timeout := None |}.

(** The fetch sequence P, F of a job that fails fast. *)
Definition fails_fast (n : nat) : WorkflowRunResult :=
  if (n <? 2)%nat then snapshot "P" None else snapshot "F" None.

(** The fetch sequence of a job that is at status C from the start but whose
    last step completes only later. *)
Definition steps_lag (n : nat) : WorkflowRunResult :=
  if (n <? 2)%nat then snapshot "C" (Some [step "C"; step "R"])
  else snapshot "C" (Some [step "C"; step "C"]).

Definition all_steps_options : WaitUntilStateOptions.t :=
  {| WaitUntilStateOptions.allInstructionsExecuted := Some true;
     WaitUntilStateOptions.minWaitTime := None;
     WaitUntilStateOptions.pollingInterval := None;
     WaitUntilStateOptions.timeout := None |}.

(** The same options with [minWaitTime] left out. *)
Definition without_minWaitTime (options : WaitUntilStateOptions.t)
  : WaitUntilStateOptions.t :=
  {| WaitUntilStateOptions.allInstructionsExecuted :=
       WaitUntilStateOptions.allInstructionsExecuted options;
     WaitUntilStateOptions.minWaitTime := None;
     WaitUntilStateOptions.pollingInterval :=
       WaitUntilStateOptions.pollingInterval options;
     WaitUntilStateOptions.timeout := WaitUntilStateOptions.timeout options |}.

(** [pollingInterval] 100 ms, [timeout] 250 ms, after a [minWaitTime] of
    1000 ms. *)
Definition short_options : WaitUntilStateOptions.t :=
  {| WaitUntilStateOptions.allInstructionsExecuted := Some true;
     WaitUntilStateOptions.minWaitTime := Some 1000;
     WaitUntilStateOptions.pollingInterval := Some 100;
     WaitUntilStateOptions.timeout := Some 250 |}.

Definition always_pending (n : nat) : WorkflowRunResult := snapshot "P" None.

(** The user callback returns on this snapshot (trivially so when no
    callback was given). *)
Definition callback_returns
    (onProgress : option (WorkflowRunResult -> Completion))
    (r : WorkflowRunResult) : Prop :=
  ∀ callback, onProgress = Some callback → callback r = Returns.

(** A snapshot after which [runWorkflowAndWait] sleeps and goes round
    again. *)
Definition keeps_running
    (onProgress : option (WorkflowRunResult -> Completion))
    (r : WorkflowRunResult) : Prop :=
  is_terminal (status r) = false ∧ callback_returns onProgress r.

(** The value [runWorkflowAndWait] returns on the terminal snapshot [r]
    after the snapshots [earlier]. *)
Definition run_value (returnIntermediateResults : bool)
    (earlier : list WorkflowRunResult) (r : WorkflowRunResult) : RunResults :=
  if returnIntermediateResults then Sequence (earlier ++ [r]) else Single r.

(** The ways the loop of [runWorkflowAndWait] stops. *)
Inductive runWorkflowAndWait_ending (runId : string)
    (returnIntermediateResults : bool)
    (onProgress : option (WorkflowRunResult -> Completion))
    (timeout startTime : Z) (fuel : nat) (earlier : list WorkflowRunResult)
  : Outcome (option RunResults) -> list Event -> World -> Prop :=
  | run_finished r w :
      is_terminal (status r) = true ->
      callback_returns onProgress r ->
      runWorkflowAndWait_ending runId returnIntermediateResults onProgress
        timeout startTime fuel earlier
        (Return (Some (run_value returnIntermediateResults earlier r)))
        (Fetched runId (inr r) :: notified onProgress r) w
  | run_callback_raised r callback reason w :
      onProgress = Some callback ->
      callback r = Raises reason ->
      runWorkflowAndWait_ending runId returnIntermediateResults onProgress
        timeout startTime fuel earlier
        (Throw (CallbackError reason))
        [Fetched runId (inr r); Progress r] w
  | run_fetch_failed error w :
      runWorkflowAndWait_ending runId returnIntermediateResults onProgress
        timeout startTime fuel earlier
        (Throw (request_failed "Error getting workflow results: " error))
        [Fetched runId (inl error)] w
  | run_timed_out w :
      timeout <= now w - startTime ->
      runWorkflowAndWait_ending runId returnIntermediateResults onProgress
        timeout startTime fuel earlier (Return None) [] w
  | run_out_of_fuel w :
      now w - startTime < timeout ->
      runWorkflowAndWait_ending runId returnIntermediateResults onProgress
        timeout startTime fuel earlier Diverge [] w.

(** What [runWorkflowAndWait] makes of the way its loop stopped. *)
Definition runWorkflowAndWait_result (timeout : Z)
    (stopped : Outcome (option RunResults)) : Outcome RunResults :=
  match stopped with
  | Return (Some v) => Return v
  | Return None => Throw (runWorkflowAndWait_timeout timeout)
  | Throw e => Throw e
  | Diverge => Diverge
  end.


(** A callback that always returns, and the options of a run that keeps
    every snapshot. *)
Definition quiet (r : WorkflowRunResult) : Completion := Returns.

Definition no_run_options : WorkflowRunOptions :=
  {| args := None; files := None; useStates := None; preserveState := None;
     noIntelligence := None; recordSession := None; browserSessionId := None;
     skipGotoUrlInstruction := None |}.

Definition keep_all_options : RunWorkflowAndWaitOptions.t :=
  {| RunWorkflowAndWaitOptions.run := no_run_options;
     RunWorkflowAndWaitOptions.pollingInterval := None;
     RunWorkflowAndWaitOptions.timeout := None;
     RunWorkflowAndWaitOptions.returnIntermediateResults := Some true;
     RunWorkflowAndWaitOptions.onProgress := Some quiet |}.

(** The fetch sequence P, F as seen after the submission (suspension points
    1 and 3). *)
Definition fails_after_submit (n : nat) : WorkflowRunResult :=
  if (n <? 3)%nat then snapshot "P" None else snapshot "F" None.

(** A job that is already Completed, polled with a timeout of zero. *)
Definition already_completed (n : nat) : WorkflowRunResult := snapshot "C" None.



(* ===================================================================== *)
(** ** Session scopes and the public operations *)
(* ===================================================================== *)

(** The world in which [withBrowserSession] starts its callback: the
    session was created and is the active one. *)
Definition scope_entered (options : BrowserSessionCreateOptions.t)
    (session : BrowserSession) (w : World) : World :=
  {| _activeSessionId := Some (uuid session);
     now := now w + Z.of_N (latency (remote w) (suspensions w));
     suspensions := S (suspensions w);
     history := history w ++
                [CreatedSession (createBrowserSession_payload options) (inr session)];
     remote := remote w |}.

(** Two nested scopes that report what the [sessionId] getter shows before,
    inside and after the inner scope. *)
Definition nested_scopes (outer_options inner_options : BrowserSessionCreateOptions.t)
  : M (string * option string * (string * option string) * option string) :=
  withBrowserSession
    (fun outer =>
       let* before := sessionId in
       let* inside :=
         withBrowserSession
           (fun inner => let* seen := sessionId in ret (inner, seen))
           inner_options in
       let* after := sessionId in
       ret (outer, before, inside, after))
    outer_options.

Definition default_session_options : BrowserSessionCreateOptions.t :=
  {| BrowserSessionCreateOptions.provider := None;
     BrowserSessionCreateOptions.useProxy := None;
     BrowserSessionCreateOptions.proxyCountry := None;
     BrowserSessionCreateOptions.proxyCity := None;
     BrowserSessionCreateOptions.useStates := None |}.

(** A callback that fails. *)
Definition failing_callback (sessionUuid : string) : M unit :=
  throw (CallbackError "boom").

(** The public operations other than [withBrowserSession]. *)
Inductive Call :=
  | CallSessionId
  | CallRunWorkflow (workflowId : string) (options : WorkflowRunOptions)
  | CallGetWorkflowResults (runId : string)
  | CallRunWorkflowAndWait (fuel : nat) (workflowId : string)
                           (options : RunWorkflowAndWaitOptions.t)
  | CallWaitUntilState (fuel : nat) (runId targetStatus : string)
                       (options : WaitUntilStateOptions.t)
  | CallCancelRun (runId : string)
  | CallRunTalent (talentId : string) (options : TalentRunOptions.t)
  | CallCreateBrowserSession (options : BrowserSessionCreateOptions.t)
  | CallListBrowserSessions
  | CallGetBrowserSession (sessionUuid : string)
  | CallCloseBrowserSession (sessionUuid : string) (force : bool).

(** The world after a call, whether it returned or threw. *)
Definition perform (c : Call) (w : World) : World :=
  match c with
  | CallSessionId => world_after sessionId w
  | CallRunWorkflow workflowId options =>
      world_after (runWorkflow workflowId options) w
  | CallGetWorkflowResults runId => world_after (getWorkflowResults runId) w
  | CallRunWorkflowAndWait fuel workflowId options =>
      world_after (runWorkflowAndWait fuel workflowId options) w
  | CallWaitUntilState fuel runId targetStatus options =>
      world_after (waitUntilState fuel runId targetStatus options) w
  | CallCancelRun runId => world_after (cancelRun runId) w
  | CallRunTalent talentId options => world_after (runTalent talentId options) w
  | CallCreateBrowserSession options =>
      world_after (createBrowserSession options) w
  | CallListBrowserSessions => world_after listBrowserSessions w
  | CallGetBrowserSession sessionUuid =>
      world_after (getBrowserSession sessionUuid) w
  | CallCloseBrowserSession sessionUuid force =>
      world_after (closeBrowserSession sessionUuid force) w
  end.

(** A computation that leaves [_activeSessionId] as it found it. *)
Definition keeps_slot {A} (m : M A) : Prop :=
  ∀ w, _activeSessionId (m w).2 = _activeSessionId w.

Definition explicit_session_options (id : string) : WorkflowRunOptions :=
  {| args := None; files := None; useStates := None; preserveState := None;
     noIntelligence := None; recordSession := None;
     browserSessionId := Some id; skipGotoUrlInstruction := None |}.

(** The fetch sequence P, R, C of a job that runs to completion. *)
Definition runs_to_completion (n : nat) : WorkflowRunResult :=
  if (n <? 2)%nat then snapshot "P" None
  else if (n <? 4)%nat then snapshot "R" None
  else snapshot "C" None.

(* ===================================================================== *)
(** ** The constructor *)
(* ===================================================================== *)

Definition DEFAULT_BASE_URL : string := "https://api.witrium.com".
Definition DEFAULT_TIMEOUT : Z := 60000.

Definition slash : ascii := "/"%char.

(** [baseUrl.replace(/\/$/, "")]: without the [m] flag [$] matches at the
    end of the input only, so the one slash that ends the string, if any, is
    dropped. *)
Fixpoint strip_trailing_slash (baseUrl : string) : string :=
  match baseUrl with
  | EmptyString => EmptyString
  | String c rest =>
      match rest with
      | EmptyString => if Ascii.eqb c slash then EmptyString else String c EmptyString
      | String _ _ => String c (strip_trailing_slash rest)
      end
  end.

(** The argument of [axios.create]. *)
Record AxiosConfig := {
  baseURL : string;
  config_timeout : Z;
  headers : list (string * string) }.

(** [new WitriumClient(apiToken, baseUrl, timeout)] with the defaults of the
    two optional parameters. *)
Definition WitriumClient_config (apiToken : string) (baseUrl : option string)
    (timeout : option Z) : AxiosConfig :=
  {| baseURL := strip_trailing_slash (default DEFAULT_BASE_URL baseUrl);
     config_timeout := default DEFAULT_TIMEOUT timeout;
     headers := [ ("X-Witrium-Key", apiToken);
                  ("Content-Type", "application/json") ] |}.

(* ===================================================================== *)
(** ** The status names of execution steps *)
(* ===================================================================== *)

(** [AgentExecutionStatus.STATUS_NAMES] and [getStatusName] of
    [constants.ts]. *)
Definition AgentExecutionStatus_STATUS_NAMES : gmap string string :=
  <["P" := "pending"]> (<["R" := "running"]> (<["C" := "completed"]>
    (<["F" := "failed"]> (<["X" := "cancelled"]> ∅)))).

Definition AgentExecutionStatus_getStatusName (statusCode : string) : Value :=
  js_or (get_property AgentExecutionStatus_STATUS_NAMES statusCode)
        (VString statusCode).

(* ===================================================================== *)
(** ** Reading documents *)
(* ===================================================================== *)

(** [obj[key]] on the own properties of a document object. *)
Fixpoint lookup_field (key : string) (fields : list (string * Json))
  : option Json :=
  match fields with
  | [] => None
  | (k, v) :: rest => if String.eqb k key then Some v else lookup_field key rest
  end.

(** A document as [_transformKeysToCamelCase] leaves it: in every object,
    at every depth, the keys are pairwise distinct and none has an
    underscore directly followed by a lower-case letter. *)
Fixpoint camel_cased (obj : Json) : bool :=
  match obj with
  | JArray items => forallb camel_cased items
  | JObject fields =>
      bool_decide (NoDup fields.*1) &&
      (fix each (todo : list (string * Json)) : bool :=
         match todo with
         | [] => true
         | (key, value) :: todo' =>
             no_snake_joint key && camel_cased value && each todo'
         end) fields
  | _ => true
  end.

(** What [_transformKeysToCamelCase] does with one wire field. *)
Definition translated (kv : string * Json) : string * Json :=
  (_toCamelCase kv.1, _transformKeysToCamelCase kv.2).

(* ===================================================================== *)
(** ** What the operations throw *)
(* ===================================================================== *)





(** Timers that never fire early. *)
Definition punctual (service : Remote) : Prop :=
  ∀ n ms, ms <= Z.of_N (timer service n ms).

(** The polling events of a call: its result fetches. *)
Definition fetch_count (evs : list Event) : nat := length (fetch_replies evs).

(** A callback that fails on terminal snapshots only. *)
Definition rejects_terminal (r : WorkflowRunResult) : Completion :=
  if is_terminal (status r) then Raises "unexpected end" else Returns.

Definition rejecting_options : RunWorkflowAndWaitOptions.t :=
  {| RunWorkflowAndWaitOptions.run := no_run_options;
     RunWorkflowAndWaitOptions.pollingInterval := None;
     RunWorkflowAndWaitOptions.timeout := None;
     RunWorkflowAndWaitOptions.returnIntermediateResults := None;
     RunWorkflowAndWaitOptions.onProgress := Some rejects_terminal |}.

(* ===================================================================== *)
(** ** The two property reads of [_transformKeysToCamelCase] *)
(* ===================================================================== *)

(** [key in obj] as an own property. *)
Definition has_own (key : string) (fields : list (string * Json)) : bool :=
  bool_decide (key ∈ fields.*1).

(** [items.map(f)] for an [f] that may throw. *)
Fixpoint map_throwing (f : Json -> option Json) (items : list Json)
  : option (list Json) :=
  match items with
  | [] => Some []
  | item :: rest =>
      match f item with
      | None => None
      | Some item' =>
          match map_throwing f rest with
          | None => None
          | Some rest' => Some (item' :: rest')
          end
      end
  end.

(** The [for (const key in obj)] loop for an [f] that may throw. *)
Fixpoint each_throwing (f : Json -> option Json)
    (todo transformed : list (string * Json)) : option (list (string * Json)) :=
  match todo with
  | [] => Some transformed
  | (key, value) :: todo' =>
      match f value with
      | None => None
      | Some value' =>
          each_throwing f todo' (set_field (_toCamelCase key) value' transformed)
      end
  end.

(** [_transformKeysToCamelCase] with its reads of [obj.constructor] and
    [obj.hasOwnProperty] spelled out; [None] stands for the [TypeError] of
    calling something that is not a function.  A parsed document never holds
    the function [Object], so an object with an own property [constructor]
    fails the test [obj.constructor === Object] and is returned as it is; an
    object that passes it but has an own property [hasOwnProperty] has a
    document, not a function, under that name, and the call
    [obj.hasOwnProperty(key)] throws. *)
Fixpoint _transformKeysToCamelCase_checked (obj : Json) : option Json :=
  match obj with
  | JArray items => JArray <$> map_throwing _transformKeysToCamelCase_checked items
  | JObject fields =>
      if has_own "constructor" fields then Some obj
      else if has_own "hasOwnProperty" fields then None
      else JObject <$> each_throwing _transformKeysToCamelCase_checked fields []
  | _ => Some obj
  end.

(** No object of the document, at any depth, has an own property named
    [constructor] or [hasOwnProperty]. *)
Fixpoint plain_keys (obj : Json) : bool :=
  match obj with
  | JArray items => forallb plain_keys items
  | JObject fields =>
      negb (has_own "constructor" fields) &&
      negb (has_own "hasOwnProperty" fields) &&
      (fix each (todo : list (string * Json)) : bool :=
         match todo with
         | [] => true
         | (_, value) :: todo' => plain_keys value && each todo'
         end) fields
  | _ => true
  end.

(** A result payload with a field named [constructor]. *)
Definition hostile_document : Json :=
  JObject [("constructor", JString "acme"); ("first_name", JString "Ada")].

(* ===================================================================== *)
(** ** Status model *)
(* ===================================================================== *)

Section StatusModel.
Import WorkflowRunStatus.

Lemma STATUS_NAMES_unknown (code : string) :
  code ∉ WIRE_CODES → STATUS_NAMES !! code = None.
Proof.
  intros Hn. unfold STATUS_NAMES, WIRE_CODES in *.
  repeat (rewrite lookup_insert_ne; [| intros <-; apply Hn; set_solver]).
  apply lookup_empty.
Qed.

Lemma getStatusName_unknown (code : string) :
  code ∉ WIRE_CODES → code ∉ OBJECT_PROTOTYPE_KEYS →
  getStatusName code = VString code.
Proof.
  intros Hw Hp. unfold getStatusName, get_property, includes.
  rewrite (STATUS_NAMES_unknown _ Hw), bool_decide_eq_false_2 by done.
  reflexivity.
Qed.

Lemma getStatusName_inherited (code : string) :
  code ∈ OBJECT_PROTOTYPE_KEYS → getStatusName code = VBuiltin code.
Proof.
  intros Hp. unfold getStatusName, get_property, includes.
  rewrite STATUS_NAMES_unknown.
  - by rewrite bool_decide_eq_true_2.
  - unfold OBJECT_PROTOTYPE_KEYS, WIRE_CODES in *.
    rewrite !elem_of_cons, elem_of_nil in Hp.
    rewrite !elem_of_cons, elem_of_nil.
    intuition (subst; discriminate).
Qed.

Lemma is_terminal_spec (code : string) :
  is_terminal code = true ↔ code ∈ ["C"; "F"; "X"].
Proof.
  unfold is_terminal, includes, TERMINAL_STATUSES.
  by rewrite bool_decide_eq_true.
Qed.

End StatusModel.

(* ===================================================================== *)
(** ** Field names *)
(* ===================================================================== *)

Lemma toUpperCase_is_upper (c : ascii) :
  is_lower c = true → is_upper (toUpperCase c) = true.
Proof. destruct c as [[] [] [] [] [] [] [] []]; vm_compute; congruence. Qed.

Lemma toLowerCase_toUpperCase (c : ascii) :
  is_lower c = true → toLowerCase (toUpperCase c) = c.
Proof. destruct c as [[] [] [] [] [] [] [] []]; vm_compute; congruence. Qed.

Lemma toLowerCase_is_lower (c : ascii) :
  is_upper c = true → is_lower (toLowerCase c) = true.
Proof. destruct c as [[] [] [] [] [] [] [] []]; vm_compute; congruence. Qed.

Lemma toUpperCase_toLowerCase (c : ascii) :
  is_upper c = true → toUpperCase (toLowerCase c) = c.
Proof. destruct c as [[] [] [] [] [] [] [] []]; vm_compute; congruence. Qed.

Lemma underscore_not_letter (c : ascii) :
  Ascii.eqb c underscore = true → is_upper c = false ∧ is_lower c = false.
Proof. intros ->%Ascii.eqb_eq. by vm_compute. Qed.

Lemma upper_not_lower (c : ascii) : is_upper c = true → is_lower c = false.
Proof. destruct c as [[] [] [] [] [] [] [] []]; vm_compute; congruence. Qed.

(** Wire to memory and back: on a name without upper-case letters the
    convention undoes [_toCamelCase]. *)
Lemma toSnakeCase_toCamelCase (wire : string) :
  no_upper wire = true → toSnakeCase (_toCamelCase wire) = wire.
Proof.
  remember (String.length wire) as n eqn:Hn.
  revert wire Hn. induction (lt_wf n) as [n _ IH]. intros wire -> Hw.
  destruct wire as [| c rest]; [done |].
  cbn [no_upper] in Hw. apply andb_prop in Hw as [Hc Hrest].
  apply negb_true_iff in Hc.
  cbn [_toCamelCase].
  destruct (Ascii.eqb c underscore) eqn:Hus.
  - destruct rest as [| d rest']; [cbn; by rewrite Hc |].
    cbn [no_upper] in Hrest. apply andb_prop in Hrest as [Hd Hrest'].
    destruct (is_lower d) eqn:Hl.
    + cbn [toSnakeCase]. rewrite toUpperCase_is_upper, toLowerCase_toUpperCase by done.
      apply Ascii.eqb_eq in Hus as ->.
      f_equal. f_equal. eapply IH; [| reflexivity | done]. cbn. lia.
    + cbn [toSnakeCase]. rewrite Hc. f_equal.
      eapply IH; [| reflexivity |]. { cbn. lia. }
      cbn [no_upper]. by rewrite Hd, Hrest'.
  - cbn [toSnakeCase]. rewrite Hc. f_equal.
    eapply IH; [| reflexivity | done]. cbn. lia.
Qed.

(** Memory to wire and back: on a name that [_toCamelCase] has nothing to
    do with, [_toCamelCase] undoes the convention. *)
Lemma toCamelCase_toSnakeCase (memory : string) :
  no_snake_joint memory = true → _toCamelCase (toSnakeCase memory) = memory.
Proof.
  induction memory as [| c rest IH]; [done |].
  intros Hj. cbn [no_snake_joint] in Hj. apply andb_prop in Hj as [Hhere Hrest].
  specialize (IH Hrest). cbn [toSnakeCase].
  destruct (is_upper c) eqn:Hu.
  - cbn [_toCamelCase]. change (Ascii.eqb underscore underscore) with true. cbn match.
    rewrite toLowerCase_is_lower, toUpperCase_toLowerCase, IH by done. done.
  - cbn [_toCamelCase]. destruct (Ascii.eqb c underscore) eqn:Hus; [| by rewrite IH].
    destruct rest as [| d rest']; [done |].
    cbn in Hhere. apply negb_true_iff in Hhere.
    cbn [toSnakeCase] in *. destruct (is_upper d) eqn:Hd.
    + change (is_lower underscore) with false. cbn match. by rewrite IH.
    + rewrite Hhere. by rewrite IH.
Qed.

Lemma toSnakeCase_no_upper (memory : string) :
  no_upper (toSnakeCase memory) = true.
Proof.
  induction memory as [| c rest IH]; [done |]. cbn [toSnakeCase].
  destruct (is_upper c) eqn:Hu; cbn [no_upper].
  - rewrite IH. change (is_upper underscore) with false.
    assert (is_upper (toLowerCase c) = false) as ->; [| done].
    apply upper_not_lower in Hu as Hl.
    destruct (is_upper (toLowerCase c)) eqn:E; [| done].
    apply upper_not_lower in E. by rewrite toLowerCase_is_lower in E.
  - by rewrite Hu, IH.
Qed.

(** [_toCamelCase] alone is not one-to-one on arbitrary keys. *)
Lemma toCamelCase_collision : _toCamelCase "a_b" = _toCamelCase "aB".
Proof. reflexivity. Qed.






(* ===================================================================== *)
(** ** Response documents *)
(* ===================================================================== *)

Lemma transformKeys_object (fields : list (string * Json)) :
  _transformKeysToCamelCase (JObject fields) =
  JObject (foldl (λ transformed kv,
                    set_field (_toCamelCase kv.1)
                              (_transformKeysToCamelCase kv.2) transformed)
                 [] fields).
Proof.
  cbn [_transformKeysToCamelCase]. f_equal. generalize (@nil (string * Json)).
  induction fields as [| [key value] rest IH]; intros transformed; [done |].
  cbn. apply IH.
Qed.

Lemma set_field_fresh key value (fields : list (string * Json)) :
  key ∉ fields.*1 → set_field key value fields = fields ++ [(key, value)].
Proof.
  induction fields as [| [k v] rest IH]; [done |]. cbn.
  rewrite not_elem_of_cons. intros [Hne Hrest].
  destruct (String.eqb k key) eqn:Heq.
  - apply String.eqb_eq in Heq. congruence.
  - by rewrite IH.
Qed.

(** When no two keys of an object collide after translation, the
    transformed object has exactly the translated keys, in order. *)
Lemma transformKeys_field_names (fields : list (string * Json)) :
  NoDup (_toCamelCase <$> fields.*1) →
  field_names (_transformKeysToCamelCase (JObject fields)) =
  _toCamelCase <$> fields.*1.
Proof.
  rewrite transformKeys_object. cbn [field_names].
  enough (∀ transformed : list (string * Json),
            NoDup (transformed.*1 ++ (_toCamelCase <$> fields.*1)) →
            (foldl (λ transformed kv,
                      set_field (_toCamelCase kv.1)
                                (_transformKeysToCamelCase kv.2) transformed)
                   transformed fields).*1 =
            transformed.*1 ++ (_toCamelCase <$> fields.*1)) as Hgen
    by (intros Hnd; by apply (Hgen [])).
  induction fields as [| [key value] rest IH]; intros transformed Hnd.
  - cbn. by rewrite app_nil_r.
  - cbn [foldl fmap list_fmap fst snd] in *.
    assert (_toCamelCase key ∉ transformed.*1) as Hfresh.
    { apply NoDup_app in Hnd as (_ & Hdisj & _). intros Hin.
      apply (Hdisj _ Hin). apply list_elem_of_here. }
    rewrite set_field_fresh by done. rewrite IH.
    + rewrite fmap_app. cbn. by rewrite <- app_assoc.
    + rewrite fmap_app. cbn. by rewrite <- app_assoc.
Qed.

(** On wire names without upper-case letters the translation is
    one-to-one, so distinct wire keys stay distinct. *)
Lemma toCamelCase_injective (wire wire' : string) :
  no_upper wire = true → no_upper wire' = true →
  _toCamelCase wire = _toCamelCase wire' → wire = wire'.
Proof.
  intros Hw Hw' Heq.
  rewrite <- (toSnakeCase_toCamelCase wire Hw),
          <- (toSnakeCase_toCamelCase wire' Hw').
  by rewrite Heq.
Qed.

(** The keys of a response object can be read back from the transformed
    object: the convention takes each translated key to the wire key. *)
Lemma transformKeys_round_trip (fields : list (string * Json)) :
  NoDup fields.*1 →
  Forall (λ key, no_upper key = true) fields.*1 →
  toSnakeCase <$> field_names (_transformKeysToCamelCase (JObject fields)) =
  fields.*1.
Proof.
  intros Hnd Hwire. rewrite transformKeys_field_names.
  - rewrite <- list_fmap_compose.
    rewrite <- (list_fmap_id (fields.*1)) at 2.
    apply Forall_fmap_ext_1. eapply Forall_impl; [exact Hwire |].
    intros key Hkey. by apply toSnakeCase_toCamelCase.
  - apply NoDup_fmap_2_strong; [| done].
    intros key key' Hin Hin' Heq. rewrite Forall_forall in Hwire.
    apply toCamelCase_injective; auto.
Qed.

Example transformKeys_results_document :
  _transformKeysToCamelCase
    (JObject [("workflow_id", JString "wf"); ("run_id", JString "r1");
              ("status", JString "R");
              ("executions",
               JArray [JObject [("instruction_order", JNumber 1);
                                ("status", JString "C")]])]) =
  JObject [("workflowId", JString "wf"); ("runId", JString "r1");
           ("status", JString "R");
           ("executions",
            JArray [JObject [("instructionOrder", JNumber 1);
                             ("status", JString "C")]])].
Proof. reflexivity. Qed.

(* ===================================================================== *)
(** ** The loop of [waitUntilState] *)
(* ===================================================================== *)

Lemma history_resume elapsed ev w :
  history (resume elapsed ev w) = history w ++ [ev].
Proof. reflexivity. Qed.

Lemma waitUntilState_loop_spec runId targetStatus allInstructionsExecuted
    pollingInterval timeout startTime fuel :
  ∀ w out w',
    waitUntilState_loop fuel runId targetStatus allInstructionsExecuted
      pollingInterval timeout startTime w = (out, w') →
    ∃ snapshots tail,
      history w' = history w ++ rounds None runId pollingInterval snapshots ++ tail ∧
      Forall (keeps_waiting targetStatus allInstructionsExecuted) snapshots ∧
      waitUntilState_ending runId targetStatus allInstructionsExecuted timeout
        startTime fuel snapshots out tail w'.
Proof.
  induction fuel as [| fuel IH]; intros w out w' Hrun; cbn in Hrun.
  - destruct (now w - startTime <? timeout) eqn:Hguard; injection Hrun as <- <-;
      exists [], []; rewrite app_nil_r; (split; [done |]); (split; [constructor |]).
    + apply wait_out_of_fuel; [lia | done].
    + apply wait_timed_out. lia.
  - destruct (now w - startTime <? timeout) eqn:Hguard.
    2:{ injection Hrun as <- <-. exists [], []. rewrite app_nil_r.
        split; [done |]. split; [constructor |]. apply wait_timed_out. lia. }
    unfold bind, getWorkflowResults, request in Hrun.
    destruct (serve_results (remote w) (suspensions w) runId) as [error | r] eqn:Hreply.
    { injection Hrun as <- <-. exists [], [Fetched runId (inl error)].
      split; [done |]. split; [constructor |]. apply wait_fetch_failed. }
    destruct (reached targetStatus allInstructionsExecuted r) eqn:Hreached.
    { injection Hrun as <- <-. exists [], [Fetched runId (inr r)].
      split; [done |]. split; [constructor |]. by apply wait_reached. }
    destruct (mismatched targetStatus r) eqn:Hmis.
    { injection Hrun as <- <-. exists [], [Fetched runId (inr r)].
      split; [done |]. split; [constructor |]. by apply wait_mismatched. }
    cbn in Hrun. apply IH in Hrun as (snapshots & tail & Hhist & Hall & Hend).
    exists (r :: snapshots), tail. split; [| split].
    + rewrite Hhist, !history_resume. cbn. by rewrite <- !app_assoc.
    + by constructor.
    + destruct Hend; try (by constructor).
      apply wait_out_of_fuel; [done | cbn; congruence].
Qed.

Lemma events_of_history {A} (m : M A) (w : World) (evs : list Event) :
  history (m w).2 = history w ++ evs → events_of m w = evs.
Proof. intros H. unfold events_of. rewrite H. apply drop_app_length. Qed.

Lemma waitUntilState_unfold fuel runId targetStatus options w :
  let allInstructionsExecuted :=
    default false (WaitUntilStateOptions.allInstructionsExecuted options) in
  let minWaitTime := default 0 (WaitUntilStateOptions.minWaitTime options) in
  let pollingInterval :=
    default 2000 (WaitUntilStateOptions.pollingInterval options) in
  let timeout := default 60000 (WaitUntilStateOptions.timeout options) in
  let w0 := after_minWaitTime minWaitTime w in
  waitUntilState fuel runId targetStatus options w =
    let '(stopped, w') :=
      waitUntilState_loop fuel runId targetStatus allInstructionsExecuted
        pollingInterval timeout (now w0) w0 in
    (waitUntilState_result targetStatus allInstructionsExecuted timeout stopped, w').
Proof.
  cbv zeta. unfold waitUntilState, after_minWaitTime, bind, Date_now.
  destruct (0 <? default 0 (WaitUntilStateOptions.minWaitTime options)); cbn;
    destruct (waitUntilState_loop _ _ _ _ _ _ _ _) as [[[r|]|e|] w']; done.
Qed.

Lemma history_after_minWaitTime minWaitTime w :
  history (after_minWaitTime minWaitTime w) =
  history w ++ minWaitTime_events minWaitTime.
Proof.
  unfold after_minWaitTime, minWaitTime_events.
  destruct (0 <? minWaitTime); [done | by rewrite app_nil_r].
Qed.

(** The shape of every run of [waitUntilState]. *)
Lemma waitUntilState_run fuel runId targetStatus options w :
  let allInstructionsExecuted :=
    default false (WaitUntilStateOptions.allInstructionsExecuted options) in
  let minWaitTime := default 0 (WaitUntilStateOptions.minWaitTime options) in
  let pollingInterval :=
    default 2000 (WaitUntilStateOptions.pollingInterval options) in
  let timeout := default 60000 (WaitUntilStateOptions.timeout options) in
  let call := waitUntilState fuel runId targetStatus options in
  ∃ snapshots tail stopped,
    events_of call w =
      minWaitTime_events minWaitTime ++
      rounds None runId pollingInterval snapshots ++ tail ∧
    Forall (keeps_waiting targetStatus allInstructionsExecuted) snapshots ∧
    waitUntilState_ending runId targetStatus allInstructionsExecuted timeout
      (now (after_minWaitTime minWaitTime w)) fuel snapshots stopped tail
      (world_after call w) ∧
    outcome_of call w =
      waitUntilState_result targetStatus allInstructionsExecuted timeout stopped.
Proof.
  cbv zeta. unfold outcome_of, world_after.
  pose proof (waitUntilState_unfold fuel runId targetStatus options w) as Hun.
  cbv zeta in Hun.
  destruct (waitUntilState_loop _ _ _ _ _ _ _ _) as [stopped w'] eqn:Hloop.
  apply waitUntilState_loop_spec in Hloop as (snapshots & tail & Hhist & Hall & Hend).
  exists snapshots, tail, stopped. rewrite Hun. cbn [fst snd].
  split; [| done].
  apply events_of_history. rewrite Hun. cbn [snd].
  rewrite Hhist, history_after_minWaitTime. by rewrite <- app_assoc.
Qed.

Lemma elem_of_rounds onProgress runId pollingInterval snapshots rid
    (r : WorkflowRunResult) :
  Fetched rid (inr r) ∈ rounds onProgress runId pollingInterval snapshots →
  r ∈ snapshots.
Proof.
  induction snapshots as [| s rest IH]; cbn; [by rewrite elem_of_nil |].
  rewrite elem_of_cons, elem_of_app, elem_of_cons.
  intros [[= ? ?] | [Hn | [[=] | Hrest]]].
  - subst. apply list_elem_of_here.
  - destruct onProgress; cbn in Hn.
    + apply elem_of_cons in Hn as [[=] | Hn]. by apply elem_of_nil in Hn.
    + by apply elem_of_nil in Hn.
  - apply list_elem_of_further. by apply IH.
Qed.

Lemma mismatched_spec targetStatus r :
  mismatched targetStatus r = true ↔
  status r ∈ ["C"; "F"; "X"] ∧ status r ≠ targetStatus.
Proof.
  unfold mismatched. rewrite andb_true_iff, negb_true_iff, is_terminal_spec.
  by rewrite String.eqb_neq.
Qed.





Lemma checkAllExecutionsCompleted_spec r :
  checkAllExecutionsCompleted r = true ↔
  ∃ steps last_step,
    executions r = Some steps ∧ list.last steps = Some last_step ∧
    AgentExecution.status last_step = "C".
Proof.
  unfold checkAllExecutionsCompleted. split.
  - destruct (executions r) as [steps |]; [| done].
    destruct (list.last steps) as [last_step |] eqn:Hlast; [| done].
    intros H%String.eqb_eq. exists steps, last_step. repeat split; [exact Hlast | exact H].
  - intros (steps & last_step & -> & -> & H). apply String.eqb_eq. exact H.
Qed.

Lemma reached_spec targetStatus allInstructionsExecuted r :
  reached targetStatus allInstructionsExecuted r = true ↔
  status r = targetStatus ∧
  (allInstructionsExecuted = false ∨
   ∃ steps last_step,
     executions r = Some steps ∧ list.last steps = Some last_step ∧
     AgentExecution.status last_step = "C").
Proof.
  unfold reached.
  rewrite andb_true_iff, orb_true_iff, negb_true_iff, String.eqb_eq.
  by rewrite checkAllExecutionsCompleted_spec.
Qed.

Lemma rounds_split onProgress runId pollingInterval snapshots
    (r : WorkflowRunResult) :
  r ∈ snapshots →
  ∃ before after,
    rounds onProgress runId pollingInterval snapshots =
    before ++ Fetched runId (inr r) :: notified onProgress r ++
    Slept pollingInterval :: after.
Proof.
  induction snapshots as [| s rest IH]; [by rewrite elem_of_nil |].
  rewrite elem_of_cons. intros [-> | Hin].
  - by exists [], (rounds onProgress runId pollingInterval rest).
  - destruct (IH Hin) as (before & after & Heq).
    exists (Fetched runId (inr s) :: notified onProgress s ++
            Slept pollingInterval :: before), after.
    cbn [rounds]. rewrite Heq. cbn. by rewrite <- !app_assoc.
Qed.

(** C2: [waitUntilState] returns a snapshot exactly when it fetched that
    snapshot and the snapshot's status equals the target and either
    [allInstructionsExecuted] is off or the execution list is non-empty with
    a last element of status C; the fetch of the returned snapshot is the
    last event of the call.  With [allInstructionsExecuted] on, a fetched
    snapshot at the target status whose execution list has no Completed last
    element is not returned: the call sleeps for [pollingInterval] right
    after that fetch and goes round the loop again. *)
Theorem waitUntilState_success fuel runId targetStatus options w :
  let allInstructionsExecuted :=
    default false (WaitUntilStateOptions.allInstructionsExecuted options) in
  let pollingInterval :=
    default 2000 (WaitUntilStateOptions.pollingInterval options) in
  let call := waitUntilState fuel runId targetStatus options in
  (∀ r,
     outcome_of call w = Return r ↔
     Fetched runId (inr r) ∈ events_of call w ∧
     status r = targetStatus ∧
     (allInstructionsExecuted = false ∨
      ∃ steps last_step,
        executions r = Some steps ∧ list.last steps = Some last_step ∧
        AgentExecution.status last_step = "C")) ∧
  (∀ r,
     outcome_of call w = Return r →
     list.last (events_of call w) = Some (Fetched runId (inr r))) ∧
  (∀ r,
     Fetched runId (inr r) ∈ events_of call w →
     allInstructionsExecuted = true →
     status r = targetStatus →
     (∀ steps last_step,
        executions r = Some steps → list.last steps = Some last_step →
        AgentExecution.status last_step ≠ "C") →
     outcome_of call w ≠ Return r ∧
     ∃ before after,
       events_of call w =
       before ++ Fetched runId (inr r) :: Slept pollingInterval :: after).
Proof.
  intros allInstructionsExecuted pollingInterval call.
  destruct (waitUntilState_run fuel runId targetStatus options w)
    as (snapshots & tail & stopped & Hev & Hall & Hend & Hout).
  fold call allInstructionsExecuted pollingInterval in Hev, Hall, Hend, Hout.
  set (pause := minWaitTime_events _) in Hev.
  assert (∀ r, Fetched runId (inr r) ∈ events_of call w →
               r ∈ snapshots ∨ Fetched runId (inr r) ∈ tail) as Hwhere.
  { intros r. rewrite Hev, !elem_of_app. intros [Hp | [Hr | Ht]].
    - unfold pause, minWaitTime_events in Hp. destruct (0 <? _) in Hp.
      + apply elem_of_cons in Hp as [[=] | Hp]. by apply elem_of_nil in Hp.
      + by apply elem_of_nil in Hp.
    - left. by apply elem_of_rounds in Hr.
    - by right. }
  rewrite Forall_forall in Hall.
  split; [| split].
  - intros r. rewrite <- reached_spec. split.
    + intros Hret. rewrite Hout in Hret.
      destruct Hend as [r' ? Hre | | | |]; try discriminate.
      injection Hret as ->. split; [| done].
      rewrite Hev, !elem_of_app. right. right. apply list_elem_of_here.
    + intros [Hin Hre]. apply Hwhere in Hin as [Hin | Hin].
      { destruct (Hall r Hin). congruence. }
      rewrite Hout.
      destruct Hend as [r' ? Hre' | r' ? Hre' | | |];
        try (by apply elem_of_nil in Hin);
        apply list_elem_of_singleton in Hin; try discriminate;
        injection Hin as <-; [done | congruence].
  - intros r Hret. rewrite Hout in Hret.
    destruct Hend as [r' ? Hre | | | |]; try discriminate.
    injection Hret as ->. rewrite Hev, !app_assoc. apply last_snoc.
  - intros r Hin Hon Hst Hsteps.
    assert (reached targetStatus allInstructionsExecuted r = false) as Hnre.
    { apply not_true_is_false. rewrite reached_spec. intros [_ [Hoff | Hdone]].
      - congruence.
      - destruct Hdone as (steps & last_step & H1 & H2 & H3).
        by apply (Hsteps steps last_step). }
    assert (mismatched targetStatus r = false) as Hnm.
    { apply not_true_is_false. rewrite mismatched_spec. tauto. }
    split.
    + rewrite Hout. destruct Hend as [r' ? Hre | | | |]; try discriminate.
      intros [= ->]. congruence.
    + apply Hwhere in Hin as [Hin | Hin].
      * destruct (rounds_split None runId pollingInterval snapshots r Hin)
          as (before & after & Hsplit).
        exists (pause ++ before), (after ++ tail).
        rewrite Hev, Hsplit. cbn. by rewrite <- !app_assoc.
      * destruct Hend as [r' ? Hre' | r' ? Hre' Hm' | | |];
          try (by apply elem_of_nil in Hin);
          apply list_elem_of_singleton in Hin; try discriminate;
          injection Hin as <-; congruence.
Qed.

Lemma waitUntilState_success_witness :
  outcome_of (waitUntilState 5 "r1" "C" all_steps_options)
             (new_client (scripted 100 steps_lag) 0) =
    Return (snapshot "C" (Some [step "C"; step "C"])) ∧
  ∃ before after,
    events_of (waitUntilState 5 "r1" "C" all_steps_options)
              (new_client (scripted 100 steps_lag) 0) =
    before ++ Fetched "r1" (inr (snapshot "C" (Some [step "C"; step "R"]))) ::
              Slept 2000 :: after.
Proof.
  destruct (waitUntilState_success 5 "r1" "C" all_steps_options
              (new_client (scripted 100 steps_lag) 0)) as (Hiff & _ & Hkeep).
  split.
  - apply Hiff. split; [vm_compute; repeat constructor |].
    split; [reflexivity |]. right.
    exists [step "C"; step "C"], (step "C"). by vm_compute.
  - apply (Hkeep (snapshot "C" (Some [step "C"; step "R"]))).
    + vm_compute. repeat constructor.
    + reflexivity.
    + reflexivity.
    + intros steps last_step [= <-] [= <-]. discriminate.
Defined.

Lemma fetch_replies_rounds onProgress runId pollingInterval snapshots :
  fetch_replies (rounds onProgress runId pollingInterval snapshots) =
  inr <$> snapshots.
Proof.
  induction snapshots as [| r rest IH]; [done |].
  cbn [rounds]. unfold fetch_replies in *. cbn [omap list_omap].
  rewrite omap_app. destruct onProgress; cbn; by rewrite IH.
Qed.

Lemma fetch_replies_minWaitTime minWaitTime :
  fetch_replies (minWaitTime_events minWaitTime) = [].
Proof. unfold minWaitTime_events. by destruct (0 <? minWaitTime). Qed.

Lemma waitUntilState_loop_times_out runId targetStatus allInstructionsExecuted
    pollingInterval timeout startTime (service : Remote) :
  (∀ n, ∃ r, serve_results service n runId = inr r ∧
             keeps_waiting targetStatus allInstructionsExecuted r) →
  (∀ n, (1 <= latency service n)%N) →
  ∀ fuel w,
    remote w = service →
    timeout - (now w - startTime) <= Z.of_nat fuel →
    (waitUntilState_loop fuel runId targetStatus allInstructionsExecuted
       pollingInterval timeout startTime w).1 = Return None.
Proof.
  intros Hpending Hlat. induction fuel as [| fuel IH]; intros w Hremote Hleft.
  - cbn. destruct (now w - startTime <? timeout) eqn:Hguard; [lia | done].
  - cbn. destruct (now w - startTime <? timeout) eqn:Hguard; [| done].
    unfold bind, getWorkflowResults, request. rewrite Hremote.
    destruct (Hpending (suspensions w)) as (r & -> & Hnre & Hnm).
    rewrite Hnre, Hnm. cbn. apply IH; [by cbn |].
    cbn. specialize (Hlat (suspensions w)). lia.
Qed.

Lemma waitUntilState_skips_minWaitTime fuel runId targetStatus options w :
  waitUntilState fuel runId targetStatus options w =
  waitUntilState fuel runId targetStatus (without_minWaitTime options)
    (after_minWaitTime (default 0 (WaitUntilStateOptions.minWaitTime options)) w).
Proof. by rewrite !waitUntilState_unfold. Qed.

(** C6: the [minWaitTime] sleep comes before every fetch and before
    [startTime] is read, so a call with [minWaitTime] behaves as the call
    without it started after the sleep.  If every fetch of the call returned
    a snapshot that neither meets the success condition nor is a terminal
    mismatch, the call ends by throwing the timeout exception with at least
    [timeout] elapsed since [startTime] (or the loop is still running, with
    less than [timeout] elapsed); the message carries the display name of the
    target and, with [allInstructionsExecuted] on, the words "and all
    instructions executed".  If the service only ever answers with such
    snapshots and every request takes at least a millisecond, [timeout]
    rounds are enough for the call to throw the timeout exception. *)
Theorem waitUntilState_times_out fuel runId targetStatus options w :
  let allInstructionsExecuted :=
    default false (WaitUntilStateOptions.allInstructionsExecuted options) in
  let minWaitTime := default 0 (WaitUntilStateOptions.minWaitTime options) in
  let timeout := default 60000 (WaitUntilStateOptions.timeout options) in
  let call := waitUntilState fuel runId targetStatus options in
  let startTime := now (after_minWaitTime minWaitTime w) in
  (∃ polling, events_of call w = minWaitTime_events minWaitTime ++ polling ∧
              sleeps (minWaitTime_events minWaitTime) =
                (if 0 <? minWaitTime then [minWaitTime] else []) ∧
              fetch_replies (minWaitTime_events minWaitTime) = []) ∧
  call w =
    waitUntilState fuel runId targetStatus (without_minWaitTime options)
      (after_minWaitTime minWaitTime w) ∧
  ((∀ reply, reply ∈ fetch_replies (events_of call w) →
      ∃ r, reply = inr r ∧ keeps_waiting targetStatus allInstructionsExecuted r) →
   (outcome_of call w =
      Throw (waitUntilState_timeout targetStatus allInstructionsExecuted timeout) ∧
    timeout <= now (world_after call w) - startTime) ∨
   (outcome_of call w = Diverge ∧
    now (world_after call w) - startTime < timeout ∧
    length (fetch_replies (events_of call w)) = fuel)) ∧
  waitUntilState_timeout targetStatus allInstructionsExecuted timeout =
    WitriumClientException
      ([ Lit "Workflow run did not reach "; Lit "status '";
         Shown (WorkflowRunStatus.getStatusName targetStatus); Lit "'" ] ++
       (if allInstructionsExecuted
        then [ Lit " and all instructions executed" ] else []) ++
       [ Lit " within "; Seconds timeout; Lit " seconds" ]) ∧
  ((∀ n, ∃ r, serve_results (remote w) n runId = inr r ∧
              keeps_waiting targetStatus allInstructionsExecuted r) →
   (∀ n, (1 <= latency (remote w) n)%N) →
   (Z.to_nat timeout <= fuel)%nat →
   outcome_of call w =
     Throw (waitUntilState_timeout targetStatus allInstructionsExecuted timeout)).
Proof.
  intros allInstructionsExecuted minWaitTime timeout call startTime.
  destruct (waitUntilState_run fuel runId targetStatus options w)
    as (snapshots & tail & stopped & Hev & Hall & Hend & Hout).
  fold call allInstructionsExecuted minWaitTime timeout startTime
    in Hev, Hall, Hend, Hout.
  split; [| split; [| split; [| split]]].
  - eexists. split; [exact Hev |]. split.
    + unfold minWaitTime_events. by destruct (0 <? minWaitTime).
    + apply fetch_replies_minWaitTime.
  - apply waitUntilState_skips_minWaitTime.
  - intros Hreplies. rewrite Hout.
    assert (fetch_replies (events_of call w) =
            (inr <$> snapshots) ++ fetch_replies tail) as Hfr.
    { rewrite Hev. unfold fetch_replies at 1. rewrite !omap_app.
      fold (fetch_replies (minWaitTime_events minWaitTime)).
      rewrite fetch_replies_minWaitTime.
      fold (fetch_replies (rounds None runId
              (default 2000 (WaitUntilStateOptions.pollingInterval options))
              snapshots)).
      by rewrite fetch_replies_rounds. }
    rewrite Hfr in Hreplies |- *.
    destruct Hend as [r ? Hre | r ? Hre Hm | error ? | ? Hlate | ? Hearly Hlen].
    + destruct (Hreplies (inr r)) as (r' & [= <-] & Hnre & _); [| congruence].
      rewrite elem_of_app. right. apply list_elem_of_here.
    + destruct (Hreplies (inr r)) as (r' & [= <-] & _ & Hnm); [| congruence].
      rewrite elem_of_app. right. apply list_elem_of_here.
    + destruct (Hreplies (inl error)) as (r' & [=] & _).
      rewrite elem_of_app. right. apply list_elem_of_here.
    + left. by split.
    + right. split; [done |]. split; [done |].
      cbn. by rewrite app_nil_r, length_fmap.
  - unfold waitUntilState_timeout. by rewrite <- !app_assoc.
  - intros Hpending Hlat Hfuel. unfold outcome_of, call.
    rewrite waitUntilState_unfold. cbv zeta.
    fold allInstructionsExecuted minWaitTime timeout.
    pose proof (waitUntilState_loop_times_out runId targetStatus
                  allInstructionsExecuted
                  (default 2000 (WaitUntilStateOptions.pollingInterval options))
                  timeout startTime (remote w) Hpending Hlat fuel
                  (after_minWaitTime minWaitTime w)) as Hloop.
    fold startTime.
    destruct (waitUntilState_loop _ _ _ _ _ _ _ _) as [stopped' w''].
    cbn in Hloop. rewrite Hloop; [done | |].
    + unfold after_minWaitTime. by destruct (0 <? minWaitTime).
    + unfold startTime. lia.
Qed.

Lemma waitUntilState_times_out_witness :
  outcome_of (waitUntilState 250 "r1" "C" short_options)
             (new_client (scripted 10 always_pending) 0) =
  Throw (WitriumClientException
           [ Lit "Workflow run did not reach "; Lit "status '";
             Shown (VString "completed"); Lit "'";
             Lit " and all instructions executed";
             Lit " within "; Seconds 250; Lit " seconds" ]).
Proof.
  destruct (waitUntilState_times_out 250 "r1" "C" short_options
              (new_client (scripted 10 always_pending) 0))
    as (_ & _ & _ & _ & Htotal).
  apply Htotal.
  - intros n. exists (snapshot "P" None). by vm_compute.
  - intros n. cbn. lia.
  - vm_compute. lia.
Defined.

(* ===================================================================== *)
(** ** The loop of [runWorkflowAndWait] *)
(* ===================================================================== *)

Lemma call_onProgress_spec onProgress r w :
  match call_onProgress onProgress r w with
  | (Return _, w') =>
      callback_returns onProgress r ∧
      history w' = history w ++ notified onProgress r ∧
      now w' = now w ∧ suspensions w' = suspensions w ∧ remote w' = remote w ∧
      _activeSessionId w' = _activeSessionId w
  | (Throw e, w') =>
      ∃ callback reason,
        onProgress = Some callback ∧ callback r = Raises reason ∧
        e = CallbackError reason ∧ history w' = history w ++ [Progress r]
  | (Diverge, _) => False
  end.
Proof.
  destruct onProgress as [callback |]; cbn.
  - destruct (callback r) as [| reason] eqn:Hcb.
    + repeat split. intros ? [= <-]. done.
    + by exists callback, reason.
  - repeat split; [| by rewrite app_nil_r]. intros ? [=].
Qed.

Lemma runWorkflowAndWait_loop_spec runId returnIntermediateResults onProgress
    pollingInterval timeout startTime fuel :
  ∀ intermediateResults w out w',
    runWorkflowAndWait_loop fuel runId returnIntermediateResults onProgress
      pollingInterval timeout startTime intermediateResults w = (out, w') →
    ∃ snapshots tail,
      history w' =
        history w ++ rounds onProgress runId pollingInterval snapshots ++ tail ∧
      Forall (keeps_running onProgress) snapshots ∧
      ∀ earlier,
        (returnIntermediateResults = true → earlier = intermediateResults) →
        runWorkflowAndWait_ending runId returnIntermediateResults onProgress
          timeout startTime fuel (earlier ++ snapshots) out tail w'.
Proof.
  induction fuel as [| fuel IH]; intros acc w out w' Hrun; cbn in Hrun.
  - destruct (now w - startTime <? timeout) eqn:Hguard; injection Hrun as <- <-;
      exists [], []; rewrite app_nil_r; (split; [done |]);
      (split; [constructor |]); intros earlier _.
    + apply run_out_of_fuel. lia.
    + apply run_timed_out. lia.
  - destruct (now w - startTime <? timeout) eqn:Hguard.
    2:{ injection Hrun as <- <-. exists [], []. rewrite app_nil_r.
        split; [done |]. split; [constructor |]. intros earlier _.
        apply run_timed_out. lia. }
    unfold bind at 1 in Hrun. unfold getWorkflowResults, request in Hrun.
    destruct (serve_results (remote w) (suspensions w) runId) as [error | r] eqn:Hreply.
    { injection Hrun as <- <-. exists [], [Fetched runId (inl error)].
      split; [done |]. split; [constructor |]. intros earlier _.
      apply run_fetch_failed. }
    unfold bind at 1 in Hrun.
    set (w1 := resume _ _ w) in Hrun.
    pose proof (call_onProgress_spec onProgress r w1) as Hcb.
    destruct (call_onProgress onProgress r w1) as [[[] | e |] w2]; [| | done].
    2:{ destruct Hcb as (callback & reason & Hon & Hraise & -> & Hhist).
        injection Hrun as <- <-. exists [], [Fetched runId (inr r); Progress r].
        split; [| split; [constructor |]].
        - rewrite Hhist. unfold w1. rewrite history_resume. cbn.
          by rewrite <- app_assoc.
        - intros earlier _. by eapply run_callback_raised. }
    destruct Hcb as (Hret & Hhist & _).
    destruct (is_terminal (status r)) eqn:Hterm.
    { injection Hrun as <- <-.
      exists [], (Fetched runId (inr r) :: notified onProgress r).
      split; [| split; [constructor |]].
      - rewrite Hhist. unfold w1. rewrite history_resume. cbn.
        by rewrite <- app_assoc.
      - intros earlier Hacc. rewrite app_nil_r.
        enough ((if returnIntermediateResults
                 then Sequence (if returnIntermediateResults
                                then acc ++ [r] else acc)
                 else Single r) =
                run_value returnIntermediateResults earlier r) as ->
          by by apply run_finished.
        unfold run_value. destruct returnIntermediateResults; [| done].
        by rewrite Hacc. }
    cbn in Hrun. apply IH in Hrun as (snapshots & tail & Hhist' & Hall & Hend).
    exists (r :: snapshots), tail. split; [| split].
    + rewrite Hhist'. cbn. rewrite Hhist. unfold w1. rewrite history_resume.
      cbn. by rewrite <- !app_assoc.
    + constructor; [by split | done].
    + intros earlier Hacc.
      replace (earlier ++ r :: snapshots) with ((earlier ++ [r]) ++ snapshots)
        by by rewrite <- app_assoc.
      specialize (Hend (earlier ++ [r])).
      assert (runWorkflowAndWait_ending runId returnIntermediateResults
                onProgress timeout startTime fuel ((earlier ++ [r]) ++ snapshots)
                out tail w') as Hend'.
      { apply Hend. intros Hon. rewrite Hon. by rewrite Hacc. }
      destruct Hend'; by econstructor.
Qed.

Lemma runWorkflowAndWait_run fuel workflowId options w :
  let timeout := default 300000 (RunWorkflowAndWaitOptions.timeout options) in
  let pollingInterval :=
    default 5000 (RunWorkflowAndWaitOptions.pollingInterval options) in
  let returnIntermediateResults :=
    default false (RunWorkflowAndWaitOptions.returnIntermediateResults options) in
  let onProgress := RunWorkflowAndWaitOptions.onProgress options in
  let call := runWorkflowAndWait fuel workflowId options in
  let payload :=
    runWorkflow_payload (RunWorkflowAndWaitOptions.run options)
      (nullish (browserSessionId (RunWorkflowAndWaitOptions.run options))
               (_activeSessionId w)) in
  let reply := serve_run (remote w) (suspensions w) workflowId payload in
  let w1 := resume (latency (remote w) (suspensions w))
                   (RanWorkflow workflowId payload reply) w in
  match reply with
  | inl error =>
      events_of call w = [RanWorkflow workflowId payload reply] ∧
      outcome_of call w = Throw (request_failed "Error running workflow: " error)
  | inr submitted =>
      ∃ snapshots tail stopped,
        events_of call w =
          RanWorkflow workflowId payload reply ::
          rounds onProgress (runId submitted) pollingInterval snapshots ++ tail ∧
        Forall (keeps_running onProgress) snapshots ∧
        runWorkflowAndWait_ending (runId submitted) returnIntermediateResults
          onProgress timeout (now w1) fuel snapshots stopped tail
          (world_after call w) ∧
        outcome_of call w = runWorkflowAndWait_result timeout stopped
  end.
Proof.
  cbv zeta. unfold outcome_of, world_after.
  set (payload := runWorkflow_payload _ _).
  assert (runWorkflowAndWait fuel workflowId options w =
          match serve_run (remote w) (suspensions w) workflowId payload with
          | inl error =>
              (Throw (request_failed "Error running workflow: " error),
               resume (latency (remote w) (suspensions w))
                 (RanWorkflow workflowId payload (inl error)) w)
          | inr submitted =>
              let w1 := resume (latency (remote w) (suspensions w))
                          (RanWorkflow workflowId payload (inr submitted)) w in
              let '(stopped, w') :=
                runWorkflowAndWait_loop fuel (runId submitted)
                  (default false (RunWorkflowAndWaitOptions.returnIntermediateResults options))
                  (RunWorkflowAndWaitOptions.onProgress options)
                  (default 5000 (RunWorkflowAndWaitOptions.pollingInterval options))
                  (default 300000 (RunWorkflowAndWaitOptions.timeout options))
                  (now w1) [] w1 in
              (runWorkflowAndWait_result
                 (default 300000 (RunWorkflowAndWaitOptions.timeout options))
                 stopped, w')
          end) as Hun.
  { unfold runWorkflowAndWait, runWorkflow, bind, read_activeSessionId,
      request, Date_now. fold payload.
    destruct (serve_run (remote w) (suspensions w) workflowId payload)
      as [error | submitted]; [done |]. cbv zeta.
    destruct (runWorkflowAndWait_loop _ _ _ _ _ _ _ _ _) as [[[v|]|e|] w']; done. }
  destruct (serve_run (remote w) (suspensions w) workflowId payload)
    as [error | submitted] eqn:Hreply.
  - rewrite Hun. split; [| done]. apply events_of_history. by rewrite Hun.
  - cbv zeta in Hun.
    destruct (runWorkflowAndWait_loop _ _ _ _ _ _ _ _ _) as [stopped w'] eqn:Hloop.
    apply runWorkflowAndWait_loop_spec in Hloop
      as (snapshots & tail & Hhist & Hall & Hend).
    exists snapshots, tail, stopped. rewrite Hun. cbn [fst snd].
    split; [| split; [done | split; [| done]]].
    + apply events_of_history. rewrite Hun. cbn [snd]. rewrite Hhist.
      rewrite history_resume. by rewrite <- app_assoc.
    + apply (Hend []). done.
Qed.

Lemma fetched_results_rounds onProgress runId pollingInterval snapshots :
  fetched_results (rounds onProgress runId pollingInterval snapshots) = snapshots.
Proof.
  induction snapshots as [| r rest IH]; [done |].
  cbn [rounds]. unfold fetched_results in *. cbn [omap list_omap].
  rewrite omap_app. destruct onProgress; cbn; by rewrite IH.
Qed.






(* ===================================================================== *)
(** ** Non-positive timeouts *)
(* ===================================================================== *)





(* ===================================================================== *)
(** ** The active-session slot *)
(* ===================================================================== *)

Create HintDb slot.

Lemma keeps_slot_ret {A} (a : A) : keeps_slot (ret a).
Proof. by intros w. Qed.

Lemma keeps_slot_throw {A} e : keeps_slot (@throw A e).
Proof. by intros w. Qed.

Lemma keeps_slot_bind {A B} (m : M A) (k : A → M B) :
  keeps_slot m → (∀ a, keeps_slot (k a)) → keeps_slot (bind m k).
Proof.
  intros Hm Hk w. unfold bind. specialize (Hm w).
  destruct (m w) as [[a | e |] w1]; cbn in *; [| done | done].
  by rewrite Hk.
Qed.

Lemma keeps_slot_request {A} what serve (ev : HttpError + A → Event) :
  keeps_slot (request what serve ev).
Proof. intros w. unfold request. by destruct (serve _ _). Qed.

Lemma keeps_slot_sleep ms : keeps_slot (sleep ms).
Proof. by intros w. Qed.

Lemma keeps_slot_Date_now : keeps_slot Date_now.
Proof. by intros w. Qed.

Lemma keeps_slot_read : keeps_slot read_activeSessionId.
Proof. by intros w. Qed.

Lemma keeps_slot_call_onProgress onProgress r :
  keeps_slot (call_onProgress onProgress r).
Proof.
  intros w. destruct onProgress as [callback |]; cbn; [| done].
  by destruct (callback r).
Qed.

#[local] Hint Resolve keeps_slot_ret keeps_slot_throw keeps_slot_request
  keeps_slot_sleep keeps_slot_Date_now keeps_slot_read
  keeps_slot_call_onProgress : slot.
#[local] Hint Extern 2 (keeps_slot (bind _ _)) =>
  apply keeps_slot_bind; [| intros ?] : slot.

Lemma keeps_slot_waitUntilState_loop fuel runId targetStatus
    allInstructionsExecuted pollingInterval timeout startTime :
  keeps_slot (waitUntilState_loop fuel runId targetStatus
                allInstructionsExecuted pollingInterval timeout startTime).
Proof.
  induction fuel as [| fuel IH]; intros w; cbn;
    destruct (now w - startTime <? timeout); try done.
  revert w. change (keeps_slot
    (let* results := getWorkflowResults runId in
     if reached targetStatus allInstructionsExecuted results then ret (Some results)
     else if mismatched targetStatus results
          then throw (terminal_mismatch (status results) targetStatus)
          else sleep pollingInterval ;;
               waitUntilState_loop fuel runId targetStatus
                 allInstructionsExecuted pollingInterval timeout startTime)).
  apply keeps_slot_bind; [unfold getWorkflowResults; auto with slot |].
  intros r. destruct (reached _ _ r); [auto with slot |].
  destruct (mismatched _ r); auto with slot.
Qed.

Lemma keeps_slot_runWorkflowAndWait_loop fuel runId returnIntermediateResults
    onProgress pollingInterval timeout startTime :
  ∀ intermediateResults,
    keeps_slot (runWorkflowAndWait_loop fuel runId returnIntermediateResults
                  onProgress pollingInterval timeout startTime
                  intermediateResults).
Proof.
  induction fuel as [| fuel IH]; intros acc w; cbn;
    destruct (now w - startTime <? timeout); try done.
  revert w. change (keeps_slot
    (let* results := getWorkflowResults runId in
     call_onProgress onProgress results ;;
     if is_terminal (status results)
     then ret (Some (if returnIntermediateResults
                     then Sequence (if returnIntermediateResults
                                    then acc ++ [results] else acc)
                     else Single results))
     else sleep pollingInterval ;;
          runWorkflowAndWait_loop fuel runId returnIntermediateResults
            onProgress pollingInterval timeout startTime
            (if returnIntermediateResults then acc ++ [results] else acc))).
  apply keeps_slot_bind; [unfold getWorkflowResults; auto with slot |].
  intros r. apply keeps_slot_bind; [auto with slot |]. intros _.
  destruct (is_terminal (status r)); auto with slot.
Qed.

#[local] Hint Resolve keeps_slot_waitUntilState_loop
  keeps_slot_runWorkflowAndWait_loop : slot.

Lemma keeps_slot_perform (c : Call) (w : World) :
  _activeSessionId (perform c w) = _activeSessionId w.
Proof.
  revert w. destruct c; cbn [perform]; unfold world_after;
    match goal with |- ∀ w, _activeSessionId (?m w).2 = _ =>
      change (keeps_slot m) end.
  - apply keeps_slot_read.
  - unfold runWorkflow. auto with slot.
  - unfold getWorkflowResults. auto with slot.
  - unfold runWorkflowAndWait.
    apply keeps_slot_bind; [unfold runWorkflow; auto with slot |]. intros sub.
    apply keeps_slot_bind; [auto with slot |]. intros t.
    apply keeps_slot_bind; [auto with slot |]. intros [v |]; auto with slot.
  - unfold waitUntilState.
    apply keeps_slot_bind; [destruct (0 <? _); auto with slot |]. intros _.
    apply keeps_slot_bind; [auto with slot |]. intros t.
    apply keeps_slot_bind; [auto with slot |]. intros [v |]; auto with slot.
  - unfold cancelRun. auto with slot.
  - unfold runTalent. auto with slot.
  - unfold createBrowserSession. auto with slot.
  - unfold listBrowserSessions. auto with slot.
  - unfold getBrowserSession. auto with slot.
  - unfold closeBrowserSession. auto with slot.
Qed.

(** C10: every public operation other than [withBrowserSession] leaves
    [_activeSessionId] as it was, whether the operation returns or throws
    ([runWorkflow] and [runTalent] only read it); so on a freshly constructed
    client, after any sequence of such operations, the [sessionId] getter
    still returns null. *)
Theorem active_session_slot_untouched :
  (∀ (c : Call) (w : World), _activeSessionId (perform c w) = _activeSessionId w) ∧
  (∀ (service : Remote) (t : Z),
     outcome_of sessionId (new_client service t) = Return None) ∧
  (∀ (service : Remote) (t : Z) (calls : list Call),
     outcome_of sessionId (foldl (λ w c, perform c w) (new_client service t) calls)
     = Return None).
Proof.
  split; [apply keeps_slot_perform |]. split; [done |].
  intros service t calls. unfold outcome_of, sessionId, read_activeSessionId.
  cbn [fst]. f_equal.
  transitivity (_activeSessionId (new_client service t)); [| done].
  generalize (new_client service t) as w.
  induction calls as [| c calls IH]; intros w; [done |].
  cbn [foldl]. rewrite IH. apply keeps_slot_perform.
Qed.

(* ===================================================================== *)
(** ** [withBrowserSession] *)
(* ===================================================================== *)

Lemma withBrowserSession_failed {T} (callback : string → M T) options w error :
  serve_create (remote w) (suspensions w) (createBrowserSession_payload options)
    = inl error →
  withBrowserSession callback options w =
  (Throw (request_failed "Error creating browser session: " error),
   resume (latency (remote w) (suspensions w))
     (CreatedSession (createBrowserSession_payload options) (inl error)) w).
Proof.
  intros Hcreate.
  unfold withBrowserSession, bind at 1, createBrowserSession, request.
  by rewrite Hcreate.
Qed.

Lemma withBrowserSession_entered {T} (callback : string → M T) options w session :
  serve_create (remote w) (suspensions w) (createBrowserSession_payload options)
    = inr session →
  withBrowserSession callback options w =
  match callback (uuid session) (scope_entered options session w) with
  | (Diverge, w_out) => (Diverge, w_out)
  | (out, w_out) =>
      (out,
       resume (latency (remote w_out) (suspensions w_out))
         (ClosedSession (uuid session) true
            (serve_close (remote w_out) (suspensions w_out) (uuid session) true))
         {| _activeSessionId := _activeSessionId w;
            now := now w_out; suspensions := suspensions w_out;
            history := history w_out; remote := remote w_out |})
  end.
Proof.
  intros Hcreate.
  unfold withBrowserSession, bind at 1, createBrowserSession, request.
  rewrite Hcreate.
  unfold bind at 1, read_activeSessionId. cbn [_activeSessionId resume].
  unfold bind at 1, write_activeSessionId. cbn [_activeSessionId resume now
    suspensions history remote].
  unfold try_finally. fold (scope_entered options session w).
  destruct (callback (uuid session) (scope_entered options session w))
    as [[v | e |] w_out]; [| | done].
  - unfold bind, try_catch, closeBrowserSession, request. cbn.
    by destruct (serve_close _ _ _ _).
  - unfold bind, try_catch, closeBrowserSession, request. cbn.
    by destruct (serve_close _ _ _ _).
Qed.

Lemma withBrowserSession_restores {T} (callback : string → M T) options w :
  outcome_of (withBrowserSession callback options) w ≠ Diverge →
  _activeSessionId (world_after (withBrowserSession callback options) w) =
  _activeSessionId w.
Proof.
  unfold outcome_of, world_after.
  destruct (serve_create (remote w) (suspensions w)
              (createBrowserSession_payload options)) as [error | session] eqn:Hc.
  - by rewrite (withBrowserSession_failed _ _ _ _ Hc).
  - rewrite (withBrowserSession_entered _ _ _ _ Hc).
    by destruct (callback _ _) as [[v | e |] w_out].
Qed.

(** C4: when the session is created, [withBrowserSession] runs the callback
    in a world where the new session is the active one; whatever the
    callback does, and whether it returns a value or throws, the call then
    puts the slot back to the value it had before the call, sends one forced
    close for the created session as its last action, ignores the reply to
    that close (a failure included), and ends with the callback's own value
    or exception.  The slot is restored after every call that ends, so after
    an inner scope the outer session is active again; in two nested scopes
    the getter shows the outer id before, the inner id inside and the outer
    id after the inner scope. *)
Theorem withBrowserSession_scope :
  (∀ (T : Type) (callback : string → M T) options w session,
     serve_create (remote w) (suspensions w) (createBrowserSession_payload options)
       = inr session →
     let w_in := scope_entered options session w in
     let call := withBrowserSession callback options in
     outcome_of sessionId w_in = Return (Some (uuid session)) ∧
     history w_in =
       history w ++
       [CreatedSession (createBrowserSession_payload options) (inr session)] ∧
     ∀ out w_out,
       callback (uuid session) w_in = (out, w_out) → out ≠ Diverge →
       outcome_of call w = out ∧
       _activeSessionId (world_after call w) = _activeSessionId w ∧
       history (world_after call w) =
         history w_out ++
         [ClosedSession (uuid session) true
            (serve_close (remote w_out) (suspensions w_out) (uuid session) true)]) ∧
  (∀ (T : Type) (callback : string → M T) options w,
     outcome_of (withBrowserSession callback options) w ≠ Diverge →
     _activeSessionId (world_after (withBrowserSession callback options) w) =
     _activeSessionId w) ∧
  (∀ outer_options inner_options w outer inner,
     serve_create (remote w) (suspensions w)
       (createBrowserSession_payload outer_options) = inr outer →
     serve_create (remote w) (S (suspensions w))
       (createBrowserSession_payload inner_options) = inr inner →
     outcome_of (nested_scopes outer_options inner_options) w =
       Return (uuid outer, Some (uuid outer),
               (uuid inner, Some (uuid inner)), Some (uuid outer))).
Proof.
  split; [| split].
  - intros T callback options w session Hcreate w_in call.
    split; [done |]. split; [done |].
    intros out w_out Hcb Hnd. unfold outcome_of, world_after, call.
    rewrite (withBrowserSession_entered _ _ _ _ Hcreate). fold w_in.
    rewrite Hcb. destruct out; done.
  - intros T callback options w. apply withBrowserSession_restores.
  - intros outer_options inner_options w outer inner Houter Hinner.
    unfold outcome_of, nested_scopes.
    rewrite (withBrowserSession_entered _ _ _ _ Houter).
    unfold bind at 1, sessionId at 1, read_activeSessionId at 1.
    unfold bind at 1.
    rewrite (withBrowserSession_entered _ _ (scope_entered outer_options outer w)
               inner); [| done].
    done.
Qed.

Lemma withBrowserSession_scope_witness :
  outcome_of (nested_scopes default_session_options default_session_options)
             (new_client (scripted 100 always_pending) 0) =
    Return ("outer", Some "outer", ("inner", Some "inner"), Some "outer") ∧
  outcome_of (withBrowserSession failing_callback default_session_options)
             (new_client (scripted 100 always_pending) 0) =
    Throw (CallbackError "boom") ∧
  _activeSessionId
    (world_after (withBrowserSession failing_callback default_session_options)
                 (new_client (scripted 100 always_pending) 0)) = None.
Proof.
  destruct withBrowserSession_scope as (Hscope & _ & Hnested).
  split.
  - apply (Hnested default_session_options default_session_options
             (new_client (scripted 100 always_pending) 0)
             (session "outer") (session "inner")); reflexivity.
  - destruct (Hscope unit failing_callback default_session_options
                (new_client (scripted 100 always_pending) 0) (session "outer")
                eq_refl) as (_ & _ & Hrun).
    destruct (Hrun (Throw (CallbackError "boom"))
                (scope_entered default_session_options (session "outer")
                   (new_client (scripted 100 always_pending) 0)))
      as (Hout & Hslot & _); [reflexivity | discriminate |].
    split; [exact Hout | exact Hslot].
Defined.

(* ===================================================================== *)
(** ** The session id in the request body *)
(* ===================================================================== *)

Lemma lookup_assign_ne {A} (key key' : string) (encode : A → Json)
    (value : option A) (payload : gmap string Json) :
  key ≠ key' → assign key encode value payload !! key' = payload !! key'.
Proof.
  intros Hne. destruct value; cbn; [by rewrite lookup_insert_ne | done].
Qed.

Lemma lookup_assign_eq {A} (key : string) (encode : A → Json)
    (value : option A) (payload : gmap string Json) :
  assign key encode value payload !! key =
  match value with
  | Some v => Some (encode v)
  | None => payload !! key
  end.
Proof. destruct value; cbn; [by rewrite lookup_insert_eq | done]. Qed.

Lemma runWorkflow_payload_session options (browserSessionId : option string) :
  runWorkflow_payload options browserSessionId !! "browser_session_id" =
  JString <$> browserSessionId.
Proof.
  unfold runWorkflow_payload.
  rewrite lookup_assign_ne by done. rewrite lookup_assign_eq.
  rewrite !lookup_assign_ne by done. rewrite lookup_empty.
  by destruct browserSessionId.
Qed.

Lemma runTalent_payload_session options (browserSessionId : option string) :
  runTalent_payload options browserSessionId !! "browser_session_id" =
  JString <$> browserSessionId.
Proof.
  unfold runTalent_payload. rewrite lookup_assign_eq.
  rewrite !lookup_assign_ne by done. rewrite lookup_empty.
  by destruct browserSessionId.
Qed.

(** C5: the one request [runWorkflow] (and [runTalent]) sends carries, under
    the key [browser_session_id], the explicit [browserSessionId] option when
    there is one, otherwise the active session id when the slot is set, and
    no such key when both are absent.  In particular a [runWorkflow] issued
    inside a [withBrowserSession] scope with an explicit id sends the
    explicit id, and without one sends the id of the scope's session. *)
Theorem browser_session_id_in_payload :
  (∀ workflowId options w,
     ∃ payload reply,
       events_of (runWorkflow workflowId options) w =
         [RanWorkflow workflowId payload reply] ∧
       payload !! "browser_session_id" =
         match browserSessionId options, _activeSessionId w with
         | Some explicit, _ => Some (JString explicit)
         | None, Some active => Some (JString active)
         | None, None => None
         end) ∧
  (∀ talentId options w,
     ∃ payload reply,
       events_of (runTalent talentId options) w =
         [RanTalent talentId payload reply] ∧
       payload !! "browser_session_id" =
         match TalentRunOptions.browserSessionId options, _activeSessionId w with
         | Some explicit, _ => Some (JString explicit)
         | None, Some active => Some (JString active)
         | None, None => None
         end) ∧
  (∀ workflowId options scope_options w session,
     serve_create (remote w) (suspensions w)
       (createBrowserSession_payload scope_options) = inr session →
     ∃ payload reply close_reply,
       events_of (withBrowserSession (λ _, runWorkflow workflowId options)
                    scope_options) w =
         [ CreatedSession (createBrowserSession_payload scope_options) (inr session);
           RanWorkflow workflowId payload reply;
           ClosedSession (uuid session) true close_reply ] ∧
       payload !! "browser_session_id" =
         match browserSessionId options with
         | Some explicit => Some (JString explicit)
         | None => Some (JString (uuid session))
         end).
Proof.
  split; [| split].
  - intros workflowId options w.
    set (payload := runWorkflow_payload options
                      (nullish (browserSessionId options) (_activeSessionId w))).
    exists payload, (serve_run (remote w) (suspensions w) workflowId payload).
    split.
    + apply events_of_history.
      unfold runWorkflow, bind, read_activeSessionId, request. fold payload.
      destruct (serve_run _ _ _ _); cbn; reflexivity.
    + unfold payload. rewrite runWorkflow_payload_session.
      by destruct (browserSessionId options), (_activeSessionId w).
  - intros talentId options w.
    set (payload := runTalent_payload options
                      (nullish (TalentRunOptions.browserSessionId options)
                               (_activeSessionId w))).
    exists payload, (serve_talent (remote w) (suspensions w) talentId payload).
    split.
    + apply events_of_history.
      unfold runTalent, bind, read_activeSessionId, request. fold payload.
      destruct (serve_talent _ _ _ _); cbn; reflexivity.
    + unfold payload. rewrite runTalent_payload_session.
      by destruct (TalentRunOptions.browserSessionId options), (_activeSessionId w).
  - intros workflowId options scope_options w session Hcreate.
    set (w_in := scope_entered scope_options session w).
    set (payload := runWorkflow_payload options
                      (nullish (browserSessionId options) (Some (uuid session)))).
    set (reply := serve_run (remote w_in) (suspensions w_in) workflowId payload).
    set (w_out := resume (latency (remote w_in) (suspensions w_in))
                    (RanWorkflow workflowId payload reply) w_in).
    exists payload, reply,
      (serve_close (remote w_out) (suspensions w_out) (uuid session) true).
    split.
    + apply events_of_history.
      rewrite (withBrowserSession_entered _ _ _ _ Hcreate). fold w_in.
      assert (runWorkflow workflowId options w_in =
              (match reply with
               | inr data => Return data
               | inl error => Throw (request_failed "Error running workflow: " error)
               end, w_out)) as ->.
      { unfold runWorkflow, bind, read_activeSessionId, request.
        cbn [_activeSessionId w_in scope_entered]. fold payload.
        fold w_in. fold reply. fold w_out. by destruct reply. }
      destruct reply; cbn; rewrite <- !app_assoc; reflexivity.
    + unfold payload. rewrite runWorkflow_payload_session.
      by destruct (browserSessionId options).
Qed.

Lemma browser_session_id_in_payload_witness :
  ∃ payload reply close_reply,
    events_of (withBrowserSession
                 (λ _, runWorkflow "wf" (explicit_session_options "mine"))
                 default_session_options)
              (new_client (scripted 100 always_pending) 0) =
      [ CreatedSession (createBrowserSession_payload default_session_options)
          (inr (session "outer"));
        RanWorkflow "wf" payload reply;
        ClosedSession "outer" true close_reply ] ∧
    payload !! "browser_session_id" = Some (JString "mine").
Proof.
  destruct browser_session_id_in_payload as (_ & _ & Hscope).
  exact (Hscope "wf" (explicit_session_options "mine") default_session_options
           (new_client (scripted 100 always_pending) 0) (session "outer") eq_refl).
Defined.

(* ===================================================================== *)
(** ** Both loops end *)
(* ===================================================================== *)

(** Each round takes at least the time of its request, so when every
    request takes a millisecond or more, [timeout] rounds exhaust the
    budget: with that much fuel the loops never stop for lack of fuel. *)
Lemma waitUntilState_loop_ends runId targetStatus allInstructionsExecuted
    pollingInterval timeout startTime (service : Remote) :
  (∀ n, (1 <= latency service n)%N) →
  ∀ fuel w,
    remote w = service →
    timeout - (now w - startTime) <= Z.of_nat fuel →
    (waitUntilState_loop fuel runId targetStatus allInstructionsExecuted
       pollingInterval timeout startTime w).1 ≠ Diverge.
Proof.
  intros Hlat. induction fuel as [| fuel IH]; intros w Hremote Hleft; cbn.
  - destruct (now w - startTime <? timeout) eqn:Hguard; [lia | done].
  - destruct (now w - startTime <? timeout) eqn:Hguard; [| done].
    unfold bind, getWorkflowResults, request.
    destruct (serve_results (remote w) (suspensions w) runId) as [error | r];
      [done |].
    destruct (reached _ _ r); [done |]. destruct (mismatched _ r); [done |].
    cbn. apply IH; [by cbn |]. cbn.
    specialize (Hlat (suspensions w)). rewrite Hremote. lia.
Qed.

Lemma waitUntilState_ends fuel runId targetStatus options w :
  (∀ n, (1 <= latency (remote w) n)%N) →
  (Z.to_nat (default 60000%Z (WaitUntilStateOptions.timeout options)) <= fuel)%nat →
  outcome_of (waitUntilState fuel runId targetStatus options) w ≠ Diverge.
Proof.
  intros Hlat Hfuel. unfold outcome_of. rewrite waitUntilState_unfold. cbv zeta.
  set (w0 := after_minWaitTime _ w).
  pose proof (waitUntilState_loop_ends runId targetStatus
                (default false (WaitUntilStateOptions.allInstructionsExecuted options))
                (default 2000 (WaitUntilStateOptions.pollingInterval options))
                (default 60000 (WaitUntilStateOptions.timeout options))
                (now w0) (remote w) Hlat fuel w0) as Hloop.
  destruct (waitUntilState_loop _ _ _ _ _ _ _ _) as [[[r |] | e |] w']; try done.
  cbn in Hloop. exfalso. apply Hloop; [| lia | done].
  unfold w0, after_minWaitTime. by destruct (0 <? _).
Qed.

Lemma runWorkflowAndWait_loop_ends runId returnIntermediateResults onProgress
    pollingInterval timeout startTime (service : Remote) :
  (∀ n, (1 <= latency service n)%N) →
  ∀ fuel intermediateResults w,
    remote w = service →
    timeout - (now w - startTime) <= Z.of_nat fuel →
    (runWorkflowAndWait_loop fuel runId returnIntermediateResults onProgress
       pollingInterval timeout startTime intermediateResults w).1 ≠ Diverge.
Proof.
  intros Hlat. induction fuel as [| fuel IH]; intros acc w Hremote Hleft; cbn.
  - destruct (now w - startTime <? timeout) eqn:Hguard; [lia | done].
  - destruct (now w - startTime <? timeout) eqn:Hguard; [| done].
    unfold bind at 1. unfold getWorkflowResults, request.
    destruct (serve_results (remote w) (suspensions w) runId) as [error | r];
      [done |].
    unfold bind at 1. set (w1 := resume _ _ w).
    pose proof (call_onProgress_spec onProgress r w1) as Hcb.
    destruct (call_onProgress onProgress r w1) as [[[] | e |] w2]; [| done | done].
    destruct Hcb as (_ & _ & Hnow & _ & Hrem & _).
    destruct (is_terminal (status r)); [done |].
    cbn. apply IH; [cbn; by rewrite Hrem |]. cbn. rewrite Hnow. unfold w1. cbn.
    specialize (Hlat (suspensions w)). rewrite Hremote. lia.
Qed.

Lemma runWorkflowAndWait_ends fuel workflowId options w :
  (∀ n, (1 <= latency (remote w) n)%N) →
  (Z.to_nat (default 300000%Z (RunWorkflowAndWaitOptions.timeout options)) <= fuel)%nat →
  outcome_of (runWorkflowAndWait fuel workflowId options) w ≠ Diverge.
Proof.
  intros Hlat Hfuel. unfold outcome_of.
  unfold runWorkflowAndWait, runWorkflow, bind at 1 2, read_activeSessionId, request.
  destruct (serve_run _ _ _ _) as [error | submitted]; [done |].
  unfold bind at 1, Date_now. unfold bind.
  set (w1 := resume _ _ w).
  pose proof (runWorkflowAndWait_loop_ends (runId submitted)
                (default false (RunWorkflowAndWaitOptions.returnIntermediateResults options))
                (RunWorkflowAndWaitOptions.onProgress options)
                (default 5000 (RunWorkflowAndWaitOptions.pollingInterval options))
                (default 300000 (RunWorkflowAndWaitOptions.timeout options))
                (now w1) (remote w) Hlat fuel [] w1) as Hloop.
  destruct (runWorkflowAndWait_loop _ _ _ _ _ _ _ _ _) as [[[v |] | e |] w'];
    try done.
  cbn in Hloop. exfalso. apply Hloop; [done | lia | done].
Qed.

(* ===================================================================== *)
(** ** Scenarios *)
(* ===================================================================== *)

(** Fetch sequence P, R, C: waiting for R returns on the second fetch. *)
Example scenario_wait_for_running :
  outcome_of (waitUntilState 5 "r1" "R" no_wait_options)
             (new_client (scripted 100 runs_to_completion) 0) =
    Return (snapshot "R" None) ∧
  length (fetch_replies
            (events_of (waitUntilState 5 "r1" "R" no_wait_options)
                       (new_client (scripted 100 runs_to_completion) 0))) = 2%nat.
Proof. by vm_compute. Qed.

(** Fetch sequence P, R, C: waiting for C returns on the third fetch. *)
Example scenario_wait_for_completed :
  outcome_of (waitUntilState 5 "r1" "C" no_wait_options)
             (new_client (scripted 100 runs_to_completion) 0) =
    Return (snapshot "C" None) ∧
  length (fetch_replies
            (events_of (waitUntilState 5 "r1" "C" no_wait_options)
                       (new_client (scripted 100 runs_to_completion) 0))) = 3%nat.
Proof. by vm_compute. Qed.

(** Fetch sequence P, F: waiting for C fails after exactly two fetches. *)
Example scenario_fails_fast :
  fetch_replies (events_of (waitUntilState 5 "r1" "C" no_wait_options)
                           (new_client (scripted 100 fails_fast) 0)) =
  [inr (snapshot "P" None); inr (snapshot "F" None)].
Proof. by vm_compute. Qed.

(** [pollingInterval] 100 ms, [timeout] 250 ms, always P, requests of 10 ms:
    three fetches, and the [minWaitTime] sleep of 1000 ms does not shorten
    the budget. *)
Example scenario_times_out :
  sleeps (events_of (waitUntilState 250 "r1" "C" short_options)
                    (new_client (scripted 10 always_pending) 0)) =
    [1000; 100; 100; 100] ∧
  length (fetch_replies
            (events_of (waitUntilState 250 "r1" "C" short_options)
                       (new_client (scripted 10 always_pending) 0))) = 3%nat.
Proof. by vm_compute. Qed.

(* ===================================================================== *)
(** ** More on field names *)
(* ===================================================================== *)

Lemma toUpperCase_not_lower (c : ascii) :
  is_lower c = true → is_lower (toUpperCase c) = false.
Proof. intros H. apply upper_not_lower. by apply toUpperCase_is_upper. Qed.

Lemma toUpperCase_not_underscore (c : ascii) :
  is_lower c = true → Ascii.eqb (toUpperCase c) underscore = false.
Proof.
  intros H. destruct (Ascii.eqb (toUpperCase c) underscore) eqn:E; [| done].
  apply underscore_not_letter in E as [E _].
  by rewrite toUpperCase_is_upper in E.
Qed.

Lemma toCamelCase_head (c : ascii) (rest : string) :
  is_lower c = false →
  ∃ c' rest', _toCamelCase (String c rest) = String c' rest' ∧
              is_lower c' = false.
Proof.
  intros Hc. cbn [_toCamelCase].
  destruct (Ascii.eqb c underscore); [| by eauto].
  destruct rest as [| d rest']; [by eauto |].
  destruct (is_lower d) eqn:Hd; [| by eauto].
  eexists _, _. split; [done |]. by apply toUpperCase_not_lower.
Qed.

Lemma toCamelCase_no_snake_joint (str : string) :
  no_snake_joint (_toCamelCase str) = true.
Proof.
  remember (String.length str) as n eqn:Hn.
  revert str Hn. induction (lt_wf n) as [n _ IH]. intros str ->.
  destruct str as [| c rest]; [done |]. cbn [_toCamelCase].
  assert (∀ s, (String.length s < String.length (String c rest))%nat →
               no_snake_joint (_toCamelCase s) = true) as IH'
    by (intros s Hs; by eapply IH).
  destruct (Ascii.eqb c underscore) eqn:Hus.
  - destruct rest as [| d rest']; [done |].
    destruct (is_lower d) eqn:Hd.
    + cbn [no_snake_joint]. rewrite toUpperCase_not_underscore by done.
      rewrite IH' by (cbn; lia). by destruct (_toCamelCase rest').
    + cbn [no_snake_joint]. rewrite IH' by (cbn; lia).
      destruct (toCamelCase_head d rest' Hd) as (c' & r' & -> & Hc').
      by rewrite Hc', andb_false_r.
  - cbn [no_snake_joint]. rewrite Hus, IH' by (cbn; lia).
    by destruct (_toCamelCase rest).
Qed.

Lemma toCamelCase_fixed (str : string) :
  no_snake_joint str = true → _toCamelCase str = str.
Proof.
  induction str as [| c rest IH]; [done |].
  cbn [no_snake_joint _toCamelCase]. intros [Hhere Hrest]%andb_prop.
  rewrite (IH Hrest). destruct (Ascii.eqb c underscore); [| done].
  destruct rest as [| d rest']; [done |].
  cbn in Hhere. apply negb_true_iff in Hhere. by rewrite Hhere.
Qed.

Lemma toCamelCase_length (str : string) :
  (String.length (_toCamelCase str) <= String.length str)%nat.
Proof.
  remember (String.length str) as n eqn:Hn.
  revert str Hn. induction (lt_wf n) as [n _ IH]. intros str ->.
  destruct str as [| c rest]; [done |]. cbn [_toCamelCase].
  assert (∀ s, (String.length s < String.length (String c rest))%nat →
               (String.length (_toCamelCase s) <= String.length s)%nat) as IH'
    by (intros s Hs; by eapply IH).
  destruct (Ascii.eqb c underscore).
  - destruct rest as [| d rest']; [done |].
    destruct (is_lower d).
    + cbn. specialize (IH' rest'). cbn in IH'. lia.
    + specialize (IH' (String d rest')). cbn in *. lia.
  - specialize (IH' rest). cbn in *. lia.
Qed.

(** X1: [_toCamelCase] always produces a name in which no underscore is
    directly followed by a lower-case letter; such names are exactly the
    ones it leaves unchanged, so applying it twice is the same as applying
    it once; and it never makes a name longer. *)
Theorem toCamelCase_normal_form :
  (∀ str, no_snake_joint (_toCamelCase str) = true) ∧
  (∀ str, _toCamelCase str = str ↔ no_snake_joint str = true) ∧
  (∀ str, _toCamelCase (_toCamelCase str) = _toCamelCase str) ∧
  (∀ str, (String.length (_toCamelCase str) <= String.length str)%nat).
Proof.
  split; [apply toCamelCase_no_snake_joint |]. split; [| split].
  - intros str. split; [| apply toCamelCase_fixed].
    intros <-. apply toCamelCase_no_snake_joint.
  - intros str. apply toCamelCase_fixed, toCamelCase_no_snake_joint.
  - apply toCamelCase_length.
Qed.

(* ===================================================================== *)
(** ** The base URL *)
(* ===================================================================== *)

Lemma strip_trailing_slash_app_slash (s : string) :
  strip_trailing_slash (s +:+ "/") = s.
Proof.
  induction s as [| c rest IH]; [done |].
  destruct rest as [| d rest']; [done |].
  change (strip_trailing_slash (String c (String d rest') +:+ "/"))
    with (String c (strip_trailing_slash (String d rest' +:+ "/"))).
  by rewrite IH.
Qed.

Lemma strip_trailing_slash_other (s : string) (c : ascii) :
  c ≠ slash →
  strip_trailing_slash (s +:+ String c "") = s +:+ String c "".
Proof.
  intros Hc. induction s as [| d rest IH].
  - change (strip_trailing_slash ("" +:+ String c ""))
      with (if Ascii.eqb c slash then EmptyString else String c EmptyString).
    destruct (Ascii.eqb c slash) eqn:E; [by apply Ascii.eqb_eq in E | done].
  - destruct rest as [| e rest'].
    + change (strip_trailing_slash (String d "" +:+ String c ""))
        with (String d (strip_trailing_slash ("" +:+ String c ""))).
      by rewrite IH.
    + change (strip_trailing_slash (String d (String e rest') +:+ String c ""))
        with (String d (strip_trailing_slash (String e rest' +:+ String c ""))).
      by rewrite IH.
Qed.

(** X2: the constructor drops exactly one trailing slash of the base URL: a
    base URL and the same URL with one more slash at its end give the same
    client configuration whenever the URL itself does not end in a slash,
    a URL that does not end in a slash is kept as it is, and of two trailing
    slashes one stays. *)
Theorem constructor_base_url apiToken (url : string) (c : ascii) timeout :
  c ≠ slash →
  WitriumClient_config apiToken (Some ((url +:+ String c "") +:+ "/")) timeout =
    WitriumClient_config apiToken (Some (url +:+ String c "")) timeout ∧
  baseURL (WitriumClient_config apiToken (Some (url +:+ String c "")) timeout) =
    url +:+ String c "" ∧
  baseURL (WitriumClient_config apiToken (Some ((url +:+ "/") +:+ "/")) timeout) =
    url +:+ "/".
Proof.
  intros Hc. unfold WitriumClient_config.
  change (default DEFAULT_BASE_URL (Some ?u)) with u.
  cbn [baseURL].
  rewrite !strip_trailing_slash_app_slash.
  by rewrite strip_trailing_slash_other.
Qed.

Lemma constructor_base_url_witness :
  WitriumClient_config "key" (Some "https://api.example.com/") None =
  WitriumClient_config "key" (Some "https://api.example.com") None.
Proof.
  apply (constructor_base_url "key" "https://api.example.co" "m"%char None).
  discriminate.
Defined.

(* ===================================================================== *)
(** ** More on response documents *)
(* ===================================================================== *)

(** Induction over documents, with the elements of arrays and the values of
    objects as smaller documents. *)
Lemma Json_induction (P : Json → Prop) :
  P JNull → (∀ b, P (JBool b)) → (∀ n, P (JNumber n)) → (∀ s, P (JString s)) →
  (∀ items, Forall P items → P (JArray items)) →
  (∀ fields, Forall (λ kv, P kv.2) fields → P (JObject fields)) →
  ∀ obj, P obj.
Proof.
  intros Hnull Hbool Hnum Hstr Harr Hobj.
  fix IH 1. intros [| b | n | s | items | fields].
  - exact Hnull.
  - apply Hbool.
  - apply Hnum.
  - apply Hstr.
  - apply Harr. induction items as [| item items IHitems]; constructor.
    + apply IH.
    + exact IHitems.
  - apply Hobj. induction fields as [| [key value] fields IHfields]; constructor.
    + apply IH.
    + exact IHfields.
Qed.

Lemma lookup_field_app key (l1 l2 : list (string * Json)) :
  lookup_field key (l1 ++ l2) =
  match lookup_field key l1 with
  | Some v => Some v
  | None => lookup_field key l2
  end.
Proof.
  induction l1 as [| [k v] l1 IH]; [done |]. cbn.
  by destruct (String.eqb k key).
Qed.

Lemma lookup_set_field key key' value (fields : list (string * Json)) :
  lookup_field key' (set_field key value fields) =
  if String.eqb key key' then Some value else lookup_field key' fields.
Proof.
  induction fields as [| [k v] rest IH]; cbn.
  - done.
  - destruct (String.eqb k key) eqn:Hk; cbn.
    + apply String.eqb_eq in Hk as ->. by destruct (String.eqb key key').
    + rewrite IH. destruct (String.eqb k key') eqn:Hk'; [| done].
      apply String.eqb_eq in Hk' as ->. by rewrite String.eqb_sym, Hk.
Qed.

Lemma set_field_names key value (fields : list (string * Json)) :
  (set_field key value fields).*1 =
  if bool_decide (key ∈ fields.*1) then fields.*1 else fields.*1 ++ [key].
Proof.
  induction fields as [| [k v] rest IH]; [done |]. cbn.
  destruct (String.eqb k key) eqn:Hk.
  - apply String.eqb_eq in Hk as ->. cbn.
    rewrite bool_decide_eq_true_2; [done | apply list_elem_of_here].
  - cbn. rewrite IH. apply String.eqb_neq in Hk.
    destruct (bool_decide (key ∈ rest.*1)) eqn:Hin.
    + apply bool_decide_eq_true in Hin.
      rewrite bool_decide_eq_true_2; [done | by apply list_elem_of_further].
    + apply bool_decide_eq_false in Hin.
      rewrite bool_decide_eq_false_2; [done |].
      rewrite elem_of_cons. intros [-> | ?]; done.
Qed.

Lemma set_field_NoDup key value (fields : list (string * Json)) :
  NoDup fields.*1 → NoDup (set_field key value fields).*1.
Proof.
  intros Hnd. rewrite set_field_names. case_bool_decide as Hin; [done |].
  apply NoDup_app. split; [done |]. split; [| apply NoDup_singleton].
  intros k Hk ->%list_elem_of_singleton. done.
Qed.

Lemma transformKeys_fold_lookup key (fields transformed : list (string * Json)) :
  lookup_field key (foldl (λ acc kv, set_field (_toCamelCase kv.1)
                                       (_transformKeysToCamelCase kv.2) acc)
                          transformed fields) =
  lookup_field key (reverse (translated <$> fields) ++ transformed).
Proof.
  revert transformed. induction fields as [| [k v] rest IH]; intros acc; [done |].
  cbn [foldl fmap list_fmap]. rewrite IH, reverse_cons, <- app_assoc.
  rewrite !lookup_field_app, lookup_set_field. cbn.
  destruct (lookup_field key (reverse (translated <$> rest))); [done |].
  by destruct (String.eqb (_toCamelCase k) key).
Qed.

Lemma transformKeys_fold_NoDup (fields transformed : list (string * Json)) :
  NoDup transformed.*1 →
  NoDup (foldl (λ acc kv, set_field (_toCamelCase kv.1)
                            (_transformKeysToCamelCase kv.2) acc)
               transformed fields).*1.
Proof.
  revert transformed. induction fields as [| [k v] rest IH]; intros acc Hnd;
    [done |].
  cbn [foldl]. apply IH. by apply set_field_NoDup.
Qed.

(** The loop over the keys: no key occurs twice in what it builds, and
    reading a key gives the transformed value of the last field whose
    translated name is that key. *)
Lemma transformKeys_lookup_last (fields : list (string * Json)) :
  ∃ transformed,
    _transformKeysToCamelCase (JObject fields) = JObject transformed ∧
    NoDup transformed.*1 ∧
    (∀ key, lookup_field key transformed =
            lookup_field key (reverse (translated <$> fields))) ∧
    (∀ key, key ∈ transformed.*1 ↔ key ∈ _toCamelCase <$> fields.*1).
Proof.
  rewrite transformKeys_object. eexists. split; [done |].
  split; [apply transformKeys_fold_NoDup; constructor |].
  assert (∀ key,
            lookup_field key
              (foldl (λ acc kv, set_field (_toCamelCase kv.1)
                                  (_transformKeysToCamelCase kv.2) acc) [] fields) =
            lookup_field key (reverse (translated <$> fields))) as Hlookup.
  { intros key. by rewrite transformKeys_fold_lookup, app_nil_r. }
  split; [done |].
  assert (∀ key (l : list (string * Json)),
            key ∈ l.*1 ↔ is_Some (lookup_field key l)) as Hdom.
  { intros key l. induction l as [| [k v] l IH]; cbn.
    - rewrite elem_of_nil. split; [done | by intros [? ?]].
    - rewrite elem_of_cons. destruct (String.eqb k key) eqn:Hk.
      + apply String.eqb_eq in Hk as ->. split; [by eauto | by left].
      + apply String.eqb_neq in Hk. rewrite IH. split; [| by right].
        intros [-> | ?]; done. }
  intros key. rewrite Hdom, Hlookup, <- Hdom.
  rewrite <- list_fmap_compose, fmap_reverse, elem_of_reverse.
  by rewrite <- list_fmap_compose.
Qed.

Example transformKeys_collision (v1 v2 : Json) :
  _transformKeysToCamelCase (JObject [("run_id", v1); ("runId", v2)]) =
  JObject [("runId", _transformKeysToCamelCase v2)].
Proof. reflexivity. Qed.

Lemma camel_cased_object (fields : list (string * Json)) :
  camel_cased (JObject fields) =
  bool_decide (NoDup fields.*1) &&
  forallb (λ kv, no_snake_joint kv.1 && camel_cased kv.2) fields.
Proof.
  cbn [camel_cased]. f_equal.
  induction fields as [| [key value] rest IH]; [done |].
  cbn [forallb fst snd]. by rewrite IH.
Qed.

Lemma set_field_Forall (Q : string * Json → Prop) key value
    (fields : list (string * Json)) :
  Q (key, value) → Forall Q fields → Forall Q (set_field key value fields).
Proof.
  intros Hnew Hall. induction Hall as [| [k v] rest Hkv Hrest IH]; cbn.
  - by repeat constructor.
  - destruct (String.eqb k key) eqn:Hk.
    + apply String.eqb_eq in Hk as ->. by constructor.
    + by constructor.
Qed.

Lemma forallb_Forall_true {A} (f : A → bool) (l : list A) :
  Forall (λ x, f x = true) l → forallb f l = true.
Proof. induction 1 as [| x l Hx _ IH]; [done |]. cbn. by rewrite Hx, IH. Qed.

Lemma transformKeys_camel_cased (obj : Json) :
  camel_cased (_transformKeysToCamelCase obj) = true.
Proof.
  induction obj as [| b | n | s | items IH | fields IH] using Json_induction;
    try done.
  - cbn [_transformKeysToCamelCase camel_cased].
    induction IH as [| item items Hitem _ IHitems]; [done |].
    cbn. by rewrite Hitem, IHitems.
  - rewrite transformKeys_object, camel_cased_object.
    rewrite bool_decide_eq_true_2
      by (apply transformKeys_fold_NoDup; constructor).
    cbn [andb]. apply forallb_Forall_true.
    enough (∀ acc : list (string * Json),
              Forall (λ kv, no_snake_joint kv.1 && camel_cased kv.2 = true) acc →
              Forall (λ kv, no_snake_joint kv.1 && camel_cased kv.2 = true)
                (foldl (λ acc kv, set_field (_toCamelCase kv.1)
                                    (_transformKeysToCamelCase kv.2) acc)
                       acc fields)) as Hgen
      by (apply Hgen; constructor).
    induction IH as [| [key value] rest Hvalue _ IHrest]; intros acc Hacc;
      [done |].
    cbn [foldl]. apply IHrest. apply set_field_Forall; [| done].
    cbn. cbn in Hvalue. by rewrite toCamelCase_no_snake_joint, Hvalue.
Qed.

Lemma transformKeys_fixed (obj : Json) :
  camel_cased obj = true → _transformKeysToCamelCase obj = obj.
Proof.
  induction obj as [| b | n | s | items IH | fields IH] using Json_induction;
    try done.
  - cbn [_transformKeysToCamelCase camel_cased]. intros Hall. f_equal.
    induction IH as [| item items Hitem _ IHitems]; [done |].
    cbn in Hall. apply andb_prop in Hall as [H1 H2].
    cbn. by rewrite Hitem, IHitems.
  - rewrite transformKeys_object, camel_cased_object.
    intros [Hnd Hall]%andb_prop. apply bool_decide_eq_true in Hnd. f_equal.
    enough (∀ acc : list (string * Json),
              NoDup (acc.*1 ++ fields.*1) →
              foldl (λ acc kv, set_field (_toCamelCase kv.1)
                                 (_transformKeysToCamelCase kv.2) acc)
                    acc fields = acc ++ fields) as Hgen
      by (by apply (Hgen [])).
    clear Hnd.
    induction IH as [| [key value] rest Hvalue _ IHrest]; intros acc Hnd.
    + by rewrite app_nil_r.
    + cbn in Hall. apply andb_prop in Hall as [[Hkey Hval]%andb_prop Hrest].
      cbn [foldl fst snd]. rewrite toCamelCase_fixed by done.
      cbn in Hvalue. rewrite Hvalue by done.
      cbn [fmap list_fmap fst] in Hnd.
      rewrite set_field_fresh.
      * rewrite IHrest; [by rewrite <- app_assoc | done |].
        rewrite fmap_app. cbn. by rewrite <- app_assoc.
      * apply NoDup_app in Hnd as (_ & Hdisj & _). intros Hin.
        apply (Hdisj _ Hin). apply list_elem_of_here.
Qed.

(** What the loop builds is camel-cased, and camel-cased documents are left
    as they are. *)
Lemma transformKeys_twice :
  (∀ obj, camel_cased (_transformKeysToCamelCase obj) = true) ∧
  (∀ obj, camel_cased obj = true → _transformKeysToCamelCase obj = obj) ∧
  (∀ obj, _transformKeysToCamelCase (_transformKeysToCamelCase obj) =
          _transformKeysToCamelCase obj).
Proof.
  split; [apply transformKeys_camel_cased |].
  split; [apply transformKeys_fixed |].
  intros obj. apply transformKeys_fixed, transformKeys_camel_cased.
Qed.

(* ===================================================================== *)
(** ** More on status names *)
(* ===================================================================== *)

Lemma getStatusName_cases (code : string) :
  (code ∈ WIRE_CODES ∧
   ∃ name, name ∈ ["pending"; "running"; "completed"; "failed"; "cancelled"] ∧
           WorkflowRunStatus.getStatusName code = VString name) ∨
  ((code ∉ WIRE_CODES) ∧ code ∈ OBJECT_PROTOTYPE_KEYS ∧
   WorkflowRunStatus.getStatusName code = VBuiltin code) ∨
  ((code ∉ WIRE_CODES) ∧ (code ∉ OBJECT_PROTOTYPE_KEYS) ∧
   WorkflowRunStatus.getStatusName code = VString code).
Proof.
  destruct (decide (code ∈ WIRE_CODES)) as [Hin | Hout].
  - left. split; [done |]. unfold WIRE_CODES in Hin.
    rewrite !elem_of_cons, elem_of_nil in Hin.
    destruct Hin as [-> | [-> | [-> | [-> | [-> | []]]]]];
      eexists; (split; [| reflexivity]); rewrite !elem_of_cons; tauto.
  - right. destruct (decide (code ∈ OBJECT_PROTOTYPE_KEYS)) as [Hp | Hp].
    + left. by rewrite getStatusName_inherited.
    + right. by rewrite getStatusName_unknown.
Qed.

(** X5: a step status and a run status with the same code have the same
    display name; the display name of a code is never undefined, and it is
    the empty string only for the empty code. *)
Theorem status_names_shown :
  (∀ code, AgentExecutionStatus_getStatusName code =
           WorkflowRunStatus.getStatusName code) ∧
  (∀ code, WorkflowRunStatus.getStatusName code ≠ VUndefined) ∧
  (∀ code, WorkflowRunStatus.getStatusName code = VString "" ↔ code = "").
Proof.
  split; [done |]. split.
  - intros code.
    destruct (getStatusName_cases code)
      as [(_ & name & _ & ->) | [(_ & _ & ->) | (_ & _ & ->)]]; done.
  - intros code. split.
    + destruct (getStatusName_cases code)
        as [(_ & name & Hname & ->) | [(_ & _ & ->) | (_ & _ & ->)]].
      * intros [= ->]. rewrite !elem_of_cons, elem_of_nil in Hname.
        intuition discriminate.
      * discriminate.
      * by intros [= ->].
    + by intros ->.
Qed.

(* ===================================================================== *)
(** ** What the operations throw *)
(* ===================================================================== *)








(* ===================================================================== *)
(** ** What polling does and does not do *)
(* ===================================================================== *)

Lemma rounds_events onProgress runId pollingInterval snapshots (ev : Event) :
  ev ∈ rounds onProgress runId pollingInterval snapshots →
  (∃ r, r ∈ snapshots ∧ ev = Fetched runId (inr r)) ∨
  (∃ r, r ∈ snapshots ∧ is_Some onProgress ∧ ev = Progress r) ∨
  ev = Slept pollingInterval.
Proof.
  induction snapshots as [| s rest IH]; cbn [rounds]; [by rewrite elem_of_nil |].
  rewrite elem_of_cons, elem_of_app, elem_of_cons.
  intros [-> | [Hn | [-> | Hrest]]].
  - left. exists s. split; [apply list_elem_of_here | done].
  - right. left. destruct onProgress; cbn in Hn.
    + apply list_elem_of_singleton in Hn as ->.
      exists s. split; [apply list_elem_of_here | by eauto].
    + by apply elem_of_nil in Hn.
  - by right; right.
  - destruct (IH Hrest) as [(r & Hr & ->) | [(r & Hr & Hon & ->) | ->]].
    + left. exists r. split; [by apply list_elem_of_further | done].
    + right. left. exists r. split; [by apply list_elem_of_further | done].
    + by right; right.
Qed.

Lemma minWaitTime_events_sleep minWaitTime (ev : Event) :
  ev ∈ minWaitTime_events minWaitTime →
  ev = Slept minWaitTime ∧ 0 < minWaitTime.
Proof.
  unfold minWaitTime_events. destruct (0 <? minWaitTime) eqn:Hm.
  - intros ->%list_elem_of_singleton. split; [done | lia].
  - by rewrite elem_of_nil.
Qed.

(** X7: [waitUntilState] touches the service only through result fetches for
    the run it was given: every event of a call is such a fetch, a sleep of
    [pollingInterval], or the initial sleep of [minWaitTime]; and a fetch
    that fails ends the call at once with the exception of that fetch,
    without a retry. *)
Theorem waitUntilState_only_fetches fuel runId targetStatus options w :
  let minWaitTime := default 0 (WaitUntilStateOptions.minWaitTime options) in
  let pollingInterval :=
    default 2000 (WaitUntilStateOptions.pollingInterval options) in
  let call := waitUntilState fuel runId targetStatus options in
  (∀ ev, ev ∈ events_of call w →
         (∃ reply, ev = Fetched runId reply) ∨
         ev = Slept pollingInterval ∨
         (ev = Slept minWaitTime ∧ 0 < minWaitTime)) ∧
  (∀ error, Fetched runId (inl error) ∈ events_of call w →
            outcome_of call w =
              Throw (request_failed "Error getting workflow results: " error) ∧
            list.last (events_of call w) = Some (Fetched runId (inl error))).
Proof.
  intros minWaitTime pollingInterval call.
  destruct (waitUntilState_run fuel runId targetStatus options w)
    as (snapshots & tail & stopped & Hev & _ & Hend & Hout).
  fold call minWaitTime pollingInterval in Hev, Hend, Hout.
  rewrite Hev, Hout. split.
  - intros ev. rewrite !elem_of_app. intros [Hp | [Hr | Ht]].
    + right. right. by apply minWaitTime_events_sleep.
    + apply rounds_events in Hr as [(r & _ & ->) | [(r & _ & [? [=]] & _) | ->]];
        [left; by eexists | by right; left].
    + left. destruct Hend; try (by apply elem_of_nil in Ht);
        apply list_elem_of_singleton in Ht as ->; by eexists.
  - intros error. rewrite !elem_of_app. intros [Hp | [Hr | Ht]].
    + by apply minWaitTime_events_sleep in Hp as [[=] _].
    + apply rounds_events in Hr
        as [(r & _ & [=]) | [(r & _ & _ & [=]) | [=]]].
    + destruct Hend; try (by apply elem_of_nil in Ht);
        apply list_elem_of_singleton in Ht; try discriminate.
      injection Ht as <-. split; [done |]. rewrite !app_assoc. apply last_snoc.
Qed.

Lemma waitUntilState_only_fetches_witness :
  list.last (events_of (waitUntilState 5 "r1" "C" no_wait_options)
               (new_client
                  {| latency := λ _, 10%N; timer := λ _ ms, Z.to_N ms;
                     serve_run := λ _ _ _, inl unavailable;
                     serve_results := λ _ _, inl unavailable;
                     serve_cancel := λ _ _, inl unavailable;
                     serve_talent := λ _ _ _, inl unavailable;
                     serve_create := λ _ _, inl unavailable;
                     serve_list := λ _, inl unavailable;
                     serve_get := λ _ _, inl unavailable;
                     serve_close := λ _ _ _, inl unavailable |} 0)) =
  Some (Fetched "r1" (inl unavailable)).
Proof.
  eapply waitUntilState_only_fetches. vm_compute. repeat constructor.
Defined.

(** X8: [runWorkflowAndWait] polls the run its own submission returned and
    nothing else: the submission is the request [runWorkflow] sends for the
    same options (so the session id is injected the same way), each fetch
    asks for the [runId] of the submission reply, nothing is fetched when the
    submission failed, and a fetch that fails ends the call at once with the
    exception of that fetch. *)
Theorem runWorkflowAndWait_polls_its_run fuel workflowId options w :
  let call := runWorkflowAndWait fuel workflowId options in
  ∃ payload reply polling,
    events_of call w = RanWorkflow workflowId payload reply :: polling ∧
    events_of (runWorkflow workflowId (RunWorkflowAndWaitOptions.run options)) w =
      [RanWorkflow workflowId payload reply] ∧
    (∀ rid fetched, Fetched rid fetched ∈ polling →
       ∃ submitted, reply = inr submitted ∧ rid = runId submitted) ∧
    (∀ rid error, Fetched rid (inl error) ∈ polling →
       outcome_of call w =
         Throw (request_failed "Error getting workflow results: " error) ∧
       list.last polling = Some (Fetched rid (inl error))).
Proof.
  intros call.
  pose proof (runWorkflowAndWait_run fuel workflowId options w) as Hrun.
  cbv zeta in Hrun. fold call in Hrun.
  set (payload := runWorkflow_payload _ _) in Hrun.
  assert (events_of (runWorkflow workflowId (RunWorkflowAndWaitOptions.run options)) w =
          [RanWorkflow workflowId payload
             (serve_run (remote w) (suspensions w) workflowId payload)]) as Hsub.
  { apply events_of_history.
    unfold runWorkflow, bind, read_activeSessionId, request. fold payload.
    by destruct (serve_run _ _ _ _). }
  destruct (serve_run (remote w) (suspensions w) workflowId payload)
    as [error | submitted].
  { destruct Hrun as [Hev Hout]. exists payload, (inl error), [].
    split; [done |]. split; [done |].
    split; intros ? ? Hin; by apply elem_of_nil in Hin. }
  destruct Hrun as (snapshots & tail & stopped & Hev & _ & Hend & Hout).
  eexists payload, (inr submitted), _. split; [exact Hev |]. split; [done |].
  split.
  - intros rid fetched. rewrite elem_of_app. intros [Hr | Ht].
    + apply rounds_events in Hr as [(r & _ & [= -> _]) | [(r & _ & _ & [=]) | [=]]].
      by eexists.
    + exists submitted. split; [done |].
      destruct Hend as [r ? | r ? ? ? | | |]; try (by apply elem_of_nil in Ht).
      * apply elem_of_cons in Ht as [[= -> _] | Ht]; [done |].
        destruct (RunWorkflowAndWaitOptions.onProgress options); cbn in Ht.
        -- by apply list_elem_of_singleton in Ht.
        -- by apply elem_of_nil in Ht.
      * rewrite !elem_of_cons, elem_of_nil in Ht.
        destruct Ht as [[= -> _] | [[=] | []]]. done.
      * by apply list_elem_of_singleton in Ht as [= -> _].
  - intros rid error. rewrite elem_of_app. intros [Hr | Ht].
    + apply rounds_events in Hr as [(r & _ & [=]) | [(r & _ & _ & [=]) | [=]]].
    + rewrite Hout.
      destruct Hend as [r ? | r ? ? ? | | |]; try (by apply elem_of_nil in Ht).
      * apply elem_of_cons in Ht as [[=] | Ht].
        destruct (RunWorkflowAndWaitOptions.onProgress options); cbn in Ht.
        -- by apply list_elem_of_singleton in Ht.
        -- by apply elem_of_nil in Ht.
      * rewrite !elem_of_cons, elem_of_nil in Ht.
        destruct Ht as [[=] | [[=] | []]].
      * apply list_elem_of_singleton in Ht as [= -> <-].
        split; [done |]. apply last_snoc.
Qed.

Lemma runWorkflowAndWait_polls_its_run_witness :
  ∃ payload reply polling,
    events_of (runWorkflowAndWait 5 "wf" keep_all_options)
              (new_client (scripted 100 fails_after_submit) 0) =
      RanWorkflow "wf" payload reply :: polling ∧
    ∀ rid fetched, Fetched rid fetched ∈ polling → rid = "r1".
Proof.
  destruct (runWorkflowAndWait_polls_its_run 5 "wf" keep_all_options
              (new_client (scripted 100 fails_after_submit) 0))
    as (payload & reply & polling & Hev & Hsub & Hrid & _).
  exists payload, reply, polling. split; [exact Hev |].
  intros rid fetched Hin.
  destruct (Hrid rid fetched Hin) as (submitted & Hreply & ->).
  vm_compute in Hsub. injection Hsub as _ <-. by injection Hreply as <-.
Defined.

Lemma last_two {A} (l : list A) (a b : A) : list.last (l ++ [a; b]) = Some b.
Proof.
  change [a; b] with ([a] ++ [b]). rewrite app_assoc. apply last_snoc.
Qed.

(** X9: when the [onProgress] callback throws on a snapshot,
    [runWorkflowAndWait] ends with that very exception; the call of the
    callback is its last action: it neither sleeps nor fetches again, and it
    sends no cancel request for the run. *)
Theorem runWorkflowAndWait_callback_throws fuel workflowId options w
    callback r reason :
  let call := runWorkflowAndWait fuel workflowId options in
  RunWorkflowAndWaitOptions.onProgress options = Some callback →
  r ∈ fetched_results (events_of call w) →
  callback r = Raises reason →
  outcome_of call w = Throw (CallbackError reason) ∧
  list.last (events_of call w) = Some (Progress r) ∧
  (∀ rid reply, Cancelled rid reply ∉ events_of call w).
Proof.
  intros call Hon Hin Hraise.
  pose proof (runWorkflowAndWait_run fuel workflowId options w) as Hrun.
  cbv zeta in Hrun. fold call in Hrun.
  set (payload := runWorkflow_payload _ _) in Hrun.
  destruct (serve_run (remote w) (suspensions w) workflowId payload)
    as [error | submitted].
  { destruct Hrun as [Hev _]. rewrite Hev in Hin. by apply elem_of_nil in Hin. }
  destruct Hrun as (snapshots & tail & stopped & Hev & Hall & Hend & Hout).
  rewrite Hev in Hin |- *. rewrite Hout.
  assert (fetched_results
            (RanWorkflow workflowId payload (inr submitted) ::
             rounds (RunWorkflowAndWaitOptions.onProgress options) (runId submitted)
               (default 5000 (RunWorkflowAndWaitOptions.pollingInterval options))
               snapshots ++ tail) =
          snapshots ++ fetched_results tail) as Hfetched.
  { unfold fetched_results at 1. cbn [omap list_omap]. rewrite omap_app.
    fold (fetched_results (rounds (RunWorkflowAndWaitOptions.onProgress options)
            (runId submitted)
            (default 5000 (RunWorkflowAndWaitOptions.pollingInterval options))
            snapshots)).
    by rewrite fetched_results_rounds. }
  rewrite Hfetched in Hin. rewrite Forall_forall in Hall.
  apply elem_of_app in Hin as [Hin | Hin].
  { destruct (Hall r Hin) as [_ Hret]. rewrite (Hret callback Hon) in Hraise.
    discriminate. }
  assert (∀ rid reply,
            Cancelled rid reply ∉
            rounds (RunWorkflowAndWaitOptions.onProgress options) (runId submitted)
              (default 5000 (RunWorkflowAndWaitOptions.pollingInterval options))
              snapshots) as Hrounds.
  { intros rid reply Hc.
    apply rounds_events in Hc as [(? & _ & [=]) | [(? & _ & _ & [=]) | [=]]]. }
  destruct Hend as [r' ? Hterm Hret | r' callback' reason' ? Hon' Hraise' | | |];
    try (by apply elem_of_nil in Hin).
  - rewrite Hon in *. cbn in Hin. apply list_elem_of_singleton in Hin as ->.
    rewrite (Hret callback eq_refl) in Hraise. discriminate.
  - cbn in Hin. apply list_elem_of_singleton in Hin as ->.
    rewrite Hon in Hon'. injection Hon' as <-.
    rewrite Hraise in Hraise'. injection Hraise' as <-.
    split; [done |]. split.
    + rewrite app_comm_cons. apply last_two.
    + intros rid reply. rewrite elem_of_cons, elem_of_app, !elem_of_cons, elem_of_nil.
      intros [[=] | [Hc | [[=] | [[=] | []]]]]. by apply Hrounds in Hc.
Qed.

Lemma runWorkflowAndWait_callback_throws_witness :
  outcome_of (runWorkflowAndWait 5 "wf" rejecting_options)
             (new_client (scripted 100 fails_after_submit) 0) =
  Throw (CallbackError "unexpected end").
Proof.
  apply (runWorkflowAndWait_callback_throws 5 "wf" rejecting_options
           (new_client (scripted 100 fails_after_submit) 0)
           rejects_terminal (snapshot "F" None) "unexpected end").
  - reflexivity.
  - vm_compute. repeat constructor.
  - reflexivity.
Defined.

(* ===================================================================== *)
(** ** Failed session creation *)
(* ===================================================================== *)

(** X10: when the session cannot be created, [withBrowserSession] throws the
    exception of the create request, never runs the callback and sends no
    close request: the attempt to create is the only event, the outcome does
    not depend on the callback, and the active-session slot keeps its
    value. *)
Theorem withBrowserSession_create_fails (T : Type) (callback : string → M T)
    options w error :
  serve_create (remote w) (suspensions w) (createBrowserSession_payload options)
    = inl error →
  let call := withBrowserSession callback options in
  outcome_of call w =
    Throw (request_failed "Error creating browser session: " error) ∧
  events_of call w =
    [CreatedSession (createBrowserSession_payload options) (inl error)] ∧
  _activeSessionId (world_after call w) = _activeSessionId w ∧
  world_after call w =
    world_after (createBrowserSession options) w.
Proof.
  intros Hcreate call. unfold outcome_of, world_after, call.
  rewrite (withBrowserSession_failed _ _ _ _ Hcreate). cbn [fst snd].
  split; [done |]. split; [| split; [done |]].
  - apply events_of_history.
    by rewrite (withBrowserSession_failed _ _ _ _ Hcreate).
  - unfold createBrowserSession, request. by rewrite Hcreate.
Qed.

Lemma withBrowserSession_create_fails_witness :
  events_of (withBrowserSession failing_callback default_session_options)
            (new_client
               {| latency := λ _, 10%N; timer := λ _ ms, Z.to_N ms;
                  serve_run := λ _ _ _, inl unavailable;
                  serve_results := λ _ _, inl unavailable;
                  serve_cancel := λ _ _, inl unavailable;
                  serve_talent := λ _ _ _, inl unavailable;
                  serve_create := λ _ _, inl unavailable;
                  serve_list := λ _, inl unavailable;
                  serve_get := λ _ _, inl unavailable;
                  serve_close := λ _ _ _, inl unavailable |} 0) =
  [CreatedSession (createBrowserSession_payload default_session_options)
     (inl unavailable)].
Proof.
  eapply withBrowserSession_create_fails. reflexivity.
Defined.

(* ===================================================================== *)
(** ** How often and how long *)
(* ===================================================================== *)

Lemma fetch_count_cons_fetched runId reply (evs : list Event) :
  fetch_count (Fetched runId reply :: evs) = S (fetch_count evs).
Proof. reflexivity. Qed.

Lemma fetch_count_cons_slept ms (evs : list Event) :
  fetch_count (Slept ms :: evs) = fetch_count evs.
Proof. reflexivity. Qed.

Lemma waitUntilState_loop_fetch_bound runId targetStatus allInstructionsExecuted
    pollingInterval timeout startTime (service : Remote) :
  punctual service → 0 < pollingInterval →
  ∀ fuel w out w',
    remote w = service →
    waitUntilState_loop fuel runId targetStatus allInstructionsExecuted
      pollingInterval timeout startTime w = (out, w') →
    ∃ evs, history w' = history w ++ evs ∧
           (fetch_count evs = 0%nat ∨
            Z.of_nat (fetch_count evs - 1) * pollingInterval +
              (now w - startTime) < timeout).
Proof.
  intros Hpunctual Hpos. induction fuel as [| fuel IH];
    intros w out w' Hremote Hrun; cbn in Hrun.
  - exists []. destruct (now w - startTime <? timeout);
      injection Hrun as <- <-; (split; [by rewrite app_nil_r | by left]).
  - destruct (now w - startTime <? timeout) eqn:Hguard.
    2:{ injection Hrun as <- <-. exists []. split; [by rewrite app_nil_r | by left]. }
    apply Z.ltb_lt in Hguard.
    unfold bind, getWorkflowResults, request in Hrun.
    destruct (serve_results (remote w) (suspensions w) runId) as [error | r].
    { injection Hrun as <- <-. exists [Fetched runId (inl error)].
      split; [done |]. right. cbn. lia. }
    destruct (reached _ _ r).
    { injection Hrun as <- <-. exists [Fetched runId (inr r)].
      split; [done |]. right. cbn. lia. }
    destruct (mismatched _ r).
    { injection Hrun as <- <-. exists [Fetched runId (inr r)].
      split; [done |]. right. cbn. lia. }
    cbn in Hrun. apply IH in Hrun as (evs & Hhist & Hbound); [| by cbn].
    exists (Fetched runId (inr r) :: Slept pollingInterval :: evs). split.
    + rewrite Hhist. cbn. by rewrite <- !app_assoc.
    + right. rewrite fetch_count_cons_fetched, fetch_count_cons_slept.
      cbn [now resume] in Hbound.
      pose proof (Hpunctual (suspensions
                    (resume (latency (remote w) (suspensions w))
                       (Fetched runId (inr r)) w)) pollingInterval) as Htimer.
      rewrite <- Hremote in Htimer. cbn [remote suspensions resume] in Htimer.
      destruct Hbound as [-> | Hbound]; [cbn; lia |].
      destruct (fetch_count evs) as [| k]; [cbn; lia |].
      replace (S (S k) - 1)%nat with (S k) by lia.
      replace (S k - 1)%nat with k in Hbound by lia. lia.
Qed.

(** X11: with timers that never fire early and a positive
    [pollingInterval], [waitUntilState] fetches fewer than
    [timeout / pollingInterval + 1] times: the number of fetches times the
    interval stays below the timeout plus one interval, however long the
    run and whatever the service answers. *)
Theorem waitUntilState_fetch_bound fuel runId targetStatus options w :
  let pollingInterval :=
    default 2000 (WaitUntilStateOptions.pollingInterval options) in
  let timeout := default 60000 (WaitUntilStateOptions.timeout options) in
  punctual (remote w) → 0 < pollingInterval →
  Z.of_nat (fetch_count
              (events_of (waitUntilState fuel runId targetStatus options) w)) *
    pollingInterval < Z.max 0 timeout + pollingInterval.
Proof.
  intros pollingInterval timeout Hpunctual Hpos.
  pose proof (waitUntilState_unfold fuel runId targetStatus options w) as Hun.
  cbv zeta in Hun. fold pollingInterval timeout in Hun.
  set (w0 := after_minWaitTime _ w) in Hun.
  destruct (waitUntilState_loop _ _ _ _ _ _ _ _) as [stopped w'] eqn:Hloop.
  apply (waitUntilState_loop_fetch_bound _ _ _ _ _ _ (remote w) Hpunctual Hpos)
    in Hloop as (evs & Hhist & Hbound).
  2:{ unfold w0, after_minWaitTime. by destruct (0 <? _). }
  assert (events_of (waitUntilState fuel runId targetStatus options) w =
          minWaitTime_events (default 0 (WaitUntilStateOptions.minWaitTime options))
          ++ evs) as ->.
  { apply events_of_history. rewrite Hun. cbn [snd]. rewrite Hhist.
    unfold w0. rewrite history_after_minWaitTime. by rewrite <- app_assoc. }
  assert (fetch_count
            (minWaitTime_events (default 0 (WaitUntilStateOptions.minWaitTime options))
             ++ evs) = fetch_count evs) as ->.
  { unfold fetch_count, fetch_replies. rewrite omap_app.
    fold (fetch_replies (minWaitTime_events
            (default 0 (WaitUntilStateOptions.minWaitTime options)))).
    by rewrite fetch_replies_minWaitTime. }
  destruct Hbound as [-> | Hbound]; [lia |].
  destruct (fetch_count evs) as [| k]; [lia |].
  replace (S k - 1)%nat with k in Hbound by lia. lia.
Qed.

Lemma waitUntilState_fetch_bound_witness :
  Z.of_nat (fetch_count
              (events_of (waitUntilState 250 "r1" "C" short_options)
                         (new_client (scripted 10 always_pending) 0))) * 100
  < Z.max 0 250 + 100.
Proof.
  apply (waitUntilState_fetch_bound 250 "r1" "C" short_options
           (new_client (scripted 10 always_pending) 0)).
  - intros n ms. cbn. lia.
  - reflexivity.
Defined.

Lemma fetch_count_app (l1 l2 : list Event) :
  fetch_count (l1 ++ l2) = (fetch_count l1 + fetch_count l2)%nat.
Proof. unfold fetch_count, fetch_replies. by rewrite omap_app, length_app. Qed.

Lemma fetch_count_notified onProgress r : fetch_count (notified onProgress r) = 0%nat.
Proof. by destruct onProgress. Qed.

Lemma runWorkflowAndWait_loop_fetch_bound runId returnIntermediateResults
    onProgress pollingInterval timeout startTime (service : Remote) :
  punctual service → 0 < pollingInterval →
  ∀ fuel intermediateResults w out w',
    remote w = service →
    runWorkflowAndWait_loop fuel runId returnIntermediateResults onProgress
      pollingInterval timeout startTime intermediateResults w = (out, w') →
    ∃ evs, history w' = history w ++ evs ∧
           (fetch_count evs = 0%nat ∨
            Z.of_nat (fetch_count evs - 1) * pollingInterval +
              (now w - startTime) < timeout).
Proof.
  intros Hpunctual Hpos. induction fuel as [| fuel IH];
    intros acc w out w' Hremote Hrun; cbn in Hrun.
  - exists []. destruct (now w - startTime <? timeout);
      injection Hrun as <- <-; (split; [by rewrite app_nil_r | by left]).
  - destruct (now w - startTime <? timeout) eqn:Hguard.
    2:{ injection Hrun as <- <-. exists []. split; [by rewrite app_nil_r | by left]. }
    apply Z.ltb_lt in Hguard.
    unfold bind at 1 in Hrun. unfold getWorkflowResults, request in Hrun.
    destruct (serve_results (remote w) (suspensions w) runId) as [error | r].
    { injection Hrun as <- <-. exists [Fetched runId (inl error)].
      split; [done |]. right. cbn. lia. }
    unfold bind at 1 in Hrun. set (w1 := resume _ _ w) in Hrun.
    pose proof (call_onProgress_spec onProgress r w1) as Hcb.
    destruct (call_onProgress onProgress r w1) as [[[] | e |] w2]; [| | done].
    2:{ destruct Hcb as (callback & reason & _ & _ & _ & Hhist).
        injection Hrun as <- <-. exists [Fetched runId (inr r); Progress r].
        split.
        - rewrite Hhist. unfold w1. rewrite history_resume.
          by rewrite <- app_assoc.
        - right. cbn. lia. }
    destruct Hcb as (_ & Hhist & Hnow & Hsusp & Hrem & _).
    destruct (is_terminal (status r)).
    { injection Hrun as <- <-.
      exists (Fetched runId (inr r) :: notified onProgress r). split.
      - rewrite Hhist. unfold w1. rewrite history_resume.
        by rewrite <- app_assoc.
      - right. rewrite fetch_count_cons_fetched, fetch_count_notified. cbn. lia. }
    cbn in Hrun. apply IH in Hrun as (evs & Hhist' & Hbound);
      [| cbn; by rewrite Hrem].
    exists (Fetched runId (inr r) :: notified onProgress r ++
            Slept pollingInterval :: evs). split.
    + rewrite Hhist'. cbn. rewrite Hhist. unfold w1. rewrite history_resume.
      cbn. by rewrite <- !app_assoc.
    + right. rewrite fetch_count_cons_fetched, fetch_count_app,
        fetch_count_notified, fetch_count_cons_slept.
      cbn [now resume] in Hbound. rewrite Hnow in Hbound.
      unfold w1 in Hbound. cbn [now resume] in Hbound.
      pose proof (Hpunctual (suspensions w2) pollingInterval) as Htimer.
      rewrite <- Hremote in Htimer.
      assert (remote w2 = remote w) as Hrem' by by rewrite Hrem.
      rewrite Hrem' in Hbound.
      destruct Hbound as [-> | Hbound]; [cbn; lia |].
      destruct (fetch_count evs) as [| k]; [cbn; lia |].
      replace (0 + S k)%nat with (S k) by lia.
      replace (S (S k) - 1)%nat with (S k) by lia.
      replace (S k - 1)%nat with k in Hbound by lia. lia.
Qed.

(** X12: with timers that never fire early and a positive
    [pollingInterval], [runWorkflowAndWait] fetches fewer than
    [timeout / pollingInterval + 1] times, whatever the service answers and
    whatever the callback does. *)
Theorem runWorkflowAndWait_fetch_bound fuel workflowId options w :
  let pollingInterval :=
    default 5000 (RunWorkflowAndWaitOptions.pollingInterval options) in
  let timeout := default 300000 (RunWorkflowAndWaitOptions.timeout options) in
  punctual (remote w) → 0 < pollingInterval →
  Z.of_nat (fetch_count
              (events_of (runWorkflowAndWait fuel workflowId options) w)) *
    pollingInterval < Z.max 0 timeout + pollingInterval.
Proof.
  intros pollingInterval timeout Hpunctual Hpos.
  set (payload := runWorkflow_payload (RunWorkflowAndWaitOptions.run options)
                    (nullish (browserSessionId (RunWorkflowAndWaitOptions.run options))
                             (_activeSessionId w))).
  set (reply := serve_run (remote w) (suspensions w) workflowId payload).
  set (w1 := resume (latency (remote w) (suspensions w))
               (RanWorkflow workflowId payload reply) w).
  destruct reply as [error | submitted] eqn:Hreply.
  - assert (events_of (runWorkflowAndWait fuel workflowId options) w =
            [RanWorkflow workflowId payload (inl error)]) as ->.
    { apply events_of_history.
      unfold runWorkflowAndWait, runWorkflow, bind, read_activeSessionId, request.
      fold payload. fold reply. by rewrite Hreply. }
    cbn. lia.
  - destruct (runWorkflowAndWait_loop fuel (runId submitted)
                (default false (RunWorkflowAndWaitOptions.returnIntermediateResults options))
                (RunWorkflowAndWaitOptions.onProgress options)
                pollingInterval timeout (now w1) [] w1) as [stopped w'] eqn:Hloop.
    pose proof Hloop as Hloop'.
    apply (runWorkflowAndWait_loop_fetch_bound _ _ _ _ _ _ (remote w)
             Hpunctual Hpos) in Hloop' as (evs & Hhist & Hbound); [| done].
    assert (events_of (runWorkflowAndWait fuel workflowId options) w =
            RanWorkflow workflowId payload (inr submitted) :: evs) as ->.
    { apply events_of_history.
      unfold runWorkflowAndWait, runWorkflow, bind, read_activeSessionId,
        request, Date_now.
      fold payload. fold reply. rewrite Hreply. fold w1.
      fold pollingInterval timeout. rewrite Hloop.
      destruct stopped as [[v |] | e |]; cbn; rewrite Hhist;
        unfold w1; cbn; by rewrite <- app_assoc. }
    change (fetch_count (RanWorkflow workflowId payload (inr submitted) :: evs))
      with (fetch_count evs).
    destruct Hbound as [-> | Hbound]; [lia |].
    destruct (fetch_count evs) as [| k]; [lia |].
    replace (S k - 1)%nat with k in Hbound by lia. lia.
Qed.

Lemma runWorkflowAndWait_fetch_bound_witness :
  Z.of_nat (fetch_count
              (events_of (runWorkflowAndWait 5 "wf" keep_all_options)
                         (new_client (scripted 100 fails_after_submit) 0))) * 5000
  < Z.max 0 300000 + 5000.
Proof.
  apply (runWorkflowAndWait_fetch_bound 5 "wf" keep_all_options
           (new_client (scripted 100 fails_after_submit) 0)).
  - intros n ms. cbn. lia.
  - reflexivity.
Defined.

(** X13: when the first snapshot [waitUntilState] fetches already meets the
    success condition (and the timeout is positive), the call returns that
    snapshot after this single fetch: apart from the [minWaitTime] sleep it
    does not sleep at all, so it does not wait out [pollingInterval]. *)
Theorem waitUntilState_returns_at_once fuel runId targetStatus options w r :
  let allInstructionsExecuted :=
    default false (WaitUntilStateOptions.allInstructionsExecuted options) in
  let minWaitTime := default 0 (WaitUntilStateOptions.minWaitTime options) in
  let timeout := default 60000 (WaitUntilStateOptions.timeout options) in
  let call := waitUntilState fuel runId targetStatus options in
  0 < timeout → (0 < fuel)%nat →
  serve_results (remote w) (suspensions (after_minWaitTime minWaitTime w)) runId
    = inr r →
  status r = targetStatus →
  (allInstructionsExecuted = false ∨
   ∃ steps last_step,
     executions r = Some steps ∧ list.last steps = Some last_step ∧
     AgentExecution.status last_step = "C") →
  outcome_of call w = Return r ∧
  events_of call w = minWaitTime_events minWaitTime ++ [Fetched runId (inr r)] ∧
  sleeps (events_of call w) = (if 0 <? minWaitTime then [minWaitTime] else []).
Proof.
  intros allInstructionsExecuted minWaitTime timeout call Htimeout Hfuel Hreply
    Hstatus Hsteps.
  assert (reached targetStatus allInstructionsExecuted r = true) as Hreached
    by (by apply reached_spec).
  set (w0 := after_minWaitTime minWaitTime w) in *.
  assert (call w =
          (Return r, resume (latency (remote w0) (suspensions w0))
                       (Fetched runId (inr r)) w0)) as Hcall.
  { unfold call. rewrite waitUntilState_unfold. cbv zeta.
    fold allInstructionsExecuted minWaitTime timeout. fold w0.
    destruct fuel as [| fuel]; [lia |]. cbn [waitUntilState_loop].
    assert ((now w0 - now w0 <? timeout) = true) as -> by lia.
    unfold bind, getWorkflowResults, request.
    assert (remote w0 = remote w) as ->
      by (unfold w0, after_minWaitTime; by destruct (0 <? minWaitTime)).
    by rewrite Hreply, Hreached. }
  assert (events_of call w =
          minWaitTime_events minWaitTime ++ [Fetched runId (inr r)]) as Hev.
  { apply events_of_history. rewrite Hcall. cbn [snd]. rewrite history_resume.
    unfold w0. rewrite history_after_minWaitTime. by rewrite <- app_assoc. }
  split; [unfold outcome_of; by rewrite Hcall |]. split; [done |].
  rewrite Hev. unfold minWaitTime_events. by destruct (0 <? minWaitTime).
Qed.

Lemma waitUntilState_returns_at_once_witness :
  events_of (waitUntilState 5 "r1" "C" no_wait_options)
            (new_client (scripted 100 already_completed) 0) =
  [Fetched "r1" (inr (snapshot "C" None))].
Proof.
  apply (waitUntilState_returns_at_once 5 "r1" "C" no_wait_options
           (new_client (scripted 100 already_completed) 0) (snapshot "C" None)).
  - reflexivity.
  - lia.
  - reflexivity.
  - reflexivity.
  - by left.
Defined.

Lemma waitUntilState_loop_clock fuel runId targetStatus allInstructionsExecuted
    pollingInterval timeout startTime :
  ∀ w, now w <= now (waitUntilState_loop fuel runId targetStatus
                        allInstructionsExecuted pollingInterval timeout
                        startTime w).2.
Proof.
  induction fuel as [| fuel IH]; intros w; cbn.
  - by destruct (now w - startTime <? timeout).
  - destruct (now w - startTime <? timeout); [| done].
    unfold bind, getWorkflowResults, request.
    destruct (serve_results _ _ _) as [error | r]; [cbn; lia |].
    destruct (reached _ _ r); [cbn; lia |].
    destruct (mismatched _ r); [cbn; lia |].
    cbn. etransitivity; [| apply IH]. cbn. lia.
Qed.

(** X14: with timers that never fire early, a call of [waitUntilState]
    never ends before [minWaitTime] has passed: the clock at its end is at
    least [minWaitTime] (when positive) past the clock at its start,
    whatever the outcome. *)
Theorem waitUntilState_takes_minWaitTime fuel runId targetStatus options w :
  let minWaitTime := default 0 (WaitUntilStateOptions.minWaitTime options) in
  punctual (remote w) →
  Z.max 0 minWaitTime <=
  now (world_after (waitUntilState fuel runId targetStatus options) w) - now w.
Proof.
  intros minWaitTime Hpunctual. unfold world_after.
  rewrite waitUntilState_unfold. cbv zeta. fold minWaitTime.
  set (w0 := after_minWaitTime minWaitTime w).
  pose proof (waitUntilState_loop_clock fuel runId targetStatus
                (default false (WaitUntilStateOptions.allInstructionsExecuted options))
                (default 2000 (WaitUntilStateOptions.pollingInterval options))
                (default 60000 (WaitUntilStateOptions.timeout options))
                (now w0) w0) as Hclock.
  destruct (waitUntilState_loop _ _ _ _ _ _ _ _) as [stopped w'].
  cbn [snd] in *.
  assert (Z.max 0 minWaitTime <= now w0 - now w) as Hstart; [| lia].
  unfold w0, after_minWaitTime. destruct (0 <? minWaitTime) eqn:Hm.
  - cbn. specialize (Hpunctual (suspensions w) minWaitTime). lia.
  - lia.
Qed.

Lemma waitUntilState_takes_minWaitTime_witness :
  Z.max 0 1000 <=
  now (world_after (waitUntilState 250 "r1" "C" short_options)
                   (new_client (scripted 10 always_pending) 0)) - 0.
Proof.
  apply (waitUntilState_takes_minWaitTime 250 "r1" "C" short_options
           (new_client (scripted 10 always_pending) 0)).
  intros n ms. cbn. lia.
Defined.

(* ===================================================================== *)
(** ** Request bodies *)
(* ===================================================================== *)

(** X15: the body [runWorkflow] builds holds a key exactly for each option
    that was given: [args] and [files] are sent as they are (the keys inside
    [args] are not translated), the other options go out under their
    snake-case keys, and no other key is ever sent. *)
Theorem runWorkflow_payload_keys (options : WorkflowRunOptions)
    (session : option string) :
  let payload := runWorkflow_payload options session in
  payload !! "args" = args options ∧
  payload !! "files" = files options ∧
  payload !! "use_states" = JStrings <$> useStates options ∧
  payload !! "preserve_state" = JString <$> preserveState options ∧
  payload !! "no_intelligence" = JBool <$> noIntelligence options ∧
  payload !! "record_session" = JBool <$> recordSession options ∧
  payload !! "browser_session_id" = JString <$> session ∧
  payload !! "skip_goto_url_instruction" =
    JBool <$> skipGotoUrlInstruction options ∧
  (∀ key,
     key ∉ ["args"; "files"; "use_states"; "preserve_state"; "no_intelligence";
            "record_session"; "browser_session_id";
            "skip_goto_url_instruction"] →
     payload !! key = None).
Proof.
  cbv zeta. unfold runWorkflow_payload.
  repeat split;
    try (repeat (rewrite lookup_assign_ne by done); rewrite lookup_assign_eq;
         repeat (rewrite lookup_assign_ne by done); rewrite ?lookup_empty;
         match goal with |- context [match ?o with _ => _ end] => by destruct o end).
  intros key Hkey. rewrite !elem_of_cons, elem_of_nil in Hkey.
  repeat (rewrite lookup_assign_ne by (intros <-; tauto)).
  apply lookup_empty.
Qed.

Lemma runWorkflow_payload_keys_witness :
  runWorkflow_payload (explicit_session_options "mine") None !! "timeout" = None.
Proof.
  apply (runWorkflow_payload_keys (explicit_session_options "mine") None).
  rewrite !elem_of_cons, elem_of_nil. intuition discriminate.
Defined.

(** X16: the body [createBrowserSession] builds holds a key exactly for each
    provisioning option that was given, under its snake-case key, and no
    other key; with no options the body is the empty object. *)
Theorem createBrowserSession_payload_keys (options : BrowserSessionCreateOptions.t) :
  let payload := createBrowserSession_payload options in
  payload !! "provider" = JString <$> BrowserSessionCreateOptions.provider options ∧
  payload !! "use_proxy" = JBool <$> BrowserSessionCreateOptions.useProxy options ∧
  payload !! "proxy_country" =
    JString <$> BrowserSessionCreateOptions.proxyCountry options ∧
  payload !! "proxy_city" =
    JString <$> BrowserSessionCreateOptions.proxyCity options ∧
  payload !! "use_states" =
    JStrings <$> BrowserSessionCreateOptions.useStates options ∧
  (∀ key,
     key ∉ ["provider"; "use_proxy"; "proxy_country"; "proxy_city"; "use_states"] →
     payload !! key = None) ∧
  createBrowserSession_payload default_session_options = ∅.
Proof.
  cbv zeta. unfold createBrowserSession_payload.
  repeat split;
    try (repeat (rewrite lookup_assign_ne by done); rewrite lookup_assign_eq;
         repeat (rewrite lookup_assign_ne by done); rewrite ?lookup_empty;
         match goal with |- context [match ?o with _ => _ end] => by destruct o end).
  intros key Hkey. rewrite !elem_of_cons, elem_of_nil in Hkey.
  repeat (rewrite lookup_assign_ne by (intros <-; tauto)).
  apply lookup_empty.
Qed.

Lemma createBrowserSession_payload_keys_witness :
  createBrowserSession_payload default_session_options !! "force" = None.
Proof.
  apply (createBrowserSession_payload_keys default_session_options).
  rewrite !elem_of_cons, elem_of_nil. intuition discriminate.
Defined.

(* ===================================================================== *)
(** ** Snake-case responses lose nothing *)
(* ===================================================================== *)

Lemma lookup_field_NoDup key value (fields : list (string * Json)) :
  NoDup fields.*1 → (key, value) ∈ fields → lookup_field key fields = Some value.
Proof.
  induction fields as [| [k v] rest IH]; [by rewrite elem_of_nil |].
  cbn. rewrite NoDup_cons, elem_of_cons. intros [Hk Hnd] [[= -> ->] | Hin].
  - by rewrite String.eqb_refl.
  - destruct (String.eqb k key) eqn:Heq; [| by apply IH].
    apply String.eqb_eq in Heq as ->. destruct Hk.
    apply list_elem_of_fmap. by exists (key, value).
Qed.

(** Distinct keys without upper-case letters do not collide. *)
Lemma transformKeys_snake_case_fields (fields : list (string * Json)) :
  NoDup fields.*1 →
  Forall (λ key, no_upper key = true) fields.*1 →
  ∃ transformed,
    _transformKeysToCamelCase (JObject fields) = JObject transformed ∧
    transformed.*1 = _toCamelCase <$> fields.*1 ∧
    length transformed = length fields ∧
    (∀ key value, (key, value) ∈ fields →
       lookup_field (_toCamelCase key) transformed =
       Some (_transformKeysToCamelCase value)).
Proof.
  intros Hnd Hwire.
  assert (NoDup (_toCamelCase <$> fields.*1)) as Hcamel.
  { apply NoDup_fmap_2_strong; [| done].
    intros key key' Hin Hin' Heq. rewrite Forall_forall in Hwire.
    apply toCamelCase_injective; auto. }
  pose proof (transformKeys_field_names fields Hcamel) as Hnames.
  rewrite transformKeys_object in Hnames |- *. cbn [field_names] in Hnames.
  eexists. split; [done |]. split; [exact Hnames |]. split.
  - rewrite <- (length_fmap fst), Hnames. by rewrite !length_fmap.
  - intros key value Hin.
    rewrite transformKeys_fold_lookup, app_nil_r.
    apply lookup_field_NoDup.
    + rewrite fmap_reverse, reverse_Permutation.
      rewrite <- list_fmap_compose.
      by rewrite <- list_fmap_compose in Hcamel.
    + apply elem_of_reverse, list_elem_of_fmap. by exists (key, value).
Qed.

(* ===================================================================== *)
(** ** A job that is already finished *)
(* ===================================================================== *)



(* ===================================================================== *)
(** ** The transformation with its property reads *)
(* ===================================================================== *)

Lemma map_throwing_Some (f : Json → option Json) (g : Json → Json) items :
  Forall (λ item, f item = Some (g item)) items →
  map_throwing f items = Some (List.map g items).
Proof.
  induction 1 as [| item rest Hitem _ IH]; [done |]. cbn.
  by rewrite Hitem, IH.
Qed.

Lemma each_throwing_Some (f : Json → option Json) (g : Json → Json)
    (todo : list (string * Json)) :
  Forall (λ kv, f kv.2 = Some (g kv.2)) todo →
  ∀ transformed,
    each_throwing f todo transformed =
    Some (foldl (λ acc kv, set_field (_toCamelCase kv.1) (g kv.2) acc)
                transformed todo).
Proof.
  induction 1 as [| [key value] rest Hvalue _ IH]; intros acc; [done |].
  cbn in *. by rewrite Hvalue, IH.
Qed.

Lemma plain_keys_object (fields : list (string * Json)) :
  plain_keys (JObject fields) =
  negb (has_own "constructor" fields) && negb (has_own "hasOwnProperty" fields) &&
  forallb (λ kv, plain_keys kv.2) fields.
Proof.
  cbn [plain_keys]. f_equal.
  induction fields as [| [key value] rest IH]; [done |].
  cbn [forallb snd]. by rewrite IH.
Qed.

Lemma forallb_Forall {A} (f : A → bool) (l : list A) :
  forallb f l = true → Forall (λ x, f x = true) l.
Proof.
  induction l as [| x l IH]; [constructor |]. cbn.
  intros [Hx Hl]%andb_prop. constructor; auto.
Qed.

(** On documents without such keys the two property reads go as expected
    and the transformation is the plain one. *)
Lemma transformKeys_checked_plain (obj : Json) :
  plain_keys obj = true →
  _transformKeysToCamelCase_checked obj = Some (_transformKeysToCamelCase obj).
Proof.
  induction obj as [| b | n | s | items IH | fields IH] using Json_induction;
    try done.
  - cbn [plain_keys _transformKeysToCamelCase_checked _transformKeysToCamelCase].
    intros Hplain%forallb_Forall.
    rewrite (map_throwing_Some _ _transformKeysToCamelCase); [done |].
    rewrite Forall_forall in IH, Hplain. apply Forall_forall.
    intros item Hin. by apply IH, Hplain.
  - rewrite plain_keys_object, transformKeys_object.
    intros [[Hc Hh]%andb_prop Hplain%forallb_Forall]%andb_prop.
    apply negb_true_iff in Hc, Hh.
    cbn [_transformKeysToCamelCase_checked]. rewrite Hc, Hh.
    rewrite (each_throwing_Some _ _transformKeysToCamelCase); [done |].
    rewrite Forall_forall in IH, Hplain. apply Forall_forall.
    intros kv Hin. by apply IH, Hplain.
Qed.

(** X3: for a response object free of the keys [constructor] and
    [hasOwnProperty], [_transformKeysToCamelCase] returns an object in which
    no key occurs twice, whose keys are the translated wire keys, and in
    which reading a key gives the transformed value of the last field of the
    response whose translated name is that key: when two wire names translate
    to the same name, the later field wins and the earlier one is lost. *)
Theorem transformKeys_later_field_wins (fields : list (string * Json)) :
  plain_keys (JObject fields) = true →
  ∃ transformed,
    _transformKeysToCamelCase_checked (JObject fields) = Some (JObject transformed) ∧
    NoDup transformed.*1 ∧
    (∀ key, lookup_field key transformed =
            lookup_field key (reverse (translated <$> fields))) ∧
    (∀ key, key ∈ transformed.*1 ↔ key ∈ _toCamelCase <$> fields.*1).
Proof.
  intros Hplain. rewrite (transformKeys_checked_plain _ Hplain).
  destruct (transformKeys_lookup_last fields) as (transformed & -> & Hrest).
  by exists transformed.
Qed.

Lemma transformKeys_later_field_wins_witness :
  _transformKeysToCamelCase_checked
    (JObject [("run_id", JString "old"); ("runId", JString "new")]) =
  Some (JObject [("runId", JString "new")]).
Proof.
  destruct (transformKeys_later_field_wins
              [("run_id", JString "old"); ("runId", JString "new")] eq_refl)
    as (transformed & Heq & _ & _ & _).
  rewrite Heq. vm_compute in Heq. by injection Heq as <-.
Defined.

(** X4: for a document free of the keys [constructor] and [hasOwnProperty],
    [_transformKeysToCamelCase] returns a document in which, at every depth,
    the keys of an object are pairwise distinct and none has an underscore
    directly followed by a lower-case letter; a document that already has
    this shape is returned unchanged; and transforming the result once more,
    when it is still free of those two keys, changes nothing. *)
Theorem transformKeys_idempotent (obj : Json) :
  plain_keys obj = true →
  ∃ once,
    _transformKeysToCamelCase_checked obj = Some once ∧
    camel_cased once = true ∧
    (camel_cased obj = true → once = obj) ∧
    (plain_keys once = true →
     _transformKeysToCamelCase_checked once = Some once).
Proof.
  intros Hplain. exists (_transformKeysToCamelCase obj).
  destruct transformKeys_twice as (Hcamel & Hfixed & Htwice).
  split; [by apply transformKeys_checked_plain |]. split; [apply Hcamel |].
  split; [apply Hfixed |].
  intros Hplain'. rewrite (transformKeys_checked_plain _ Hplain').
  by rewrite Htwice.
Qed.

Lemma transformKeys_idempotent_witness :
  _transformKeysToCamelCase_checked
    (JObject [("runId", JString "r1");
              ("executions", JArray [JObject [("instructionOrder", JNumber 1)]])]) =
  Some (JObject [("runId", JString "r1");
                 ("executions", JArray [JObject [("instructionOrder", JNumber 1)]])]).
Proof.
  destruct (transformKeys_idempotent
              (JObject [("runId", JString "r1");
                        ("executions",
                         JArray [JObject [("instructionOrder", JNumber 1)]])])
              eq_refl) as (once & Heq & _ & Hsame & _).
  rewrite Heq. by rewrite Hsame.
Defined.

(** X17: a response object free of the keys [constructor] and
    [hasOwnProperty] whose keys are pairwise distinct and contain no
    upper-case letter keeps every field: the transformed object has the
    translated keys in the same order, as many fields as the response, and
    under each translated key the transformed value of that field. *)
Theorem transformKeys_keeps_snake_case_fields (fields : list (string * Json)) :
  plain_keys (JObject fields) = true →
  NoDup fields.*1 →
  Forall (λ key, no_upper key = true) fields.*1 →
  ∃ transformed,
    _transformKeysToCamelCase_checked (JObject fields) = Some (JObject transformed) ∧
    transformed.*1 = _toCamelCase <$> fields.*1 ∧
    length transformed = length fields ∧
    (∀ key value, (key, value) ∈ fields →
       lookup_field (_toCamelCase key) transformed =
       Some (_transformKeysToCamelCase value)).
Proof.
  intros Hplain Hnd Hwire. rewrite (transformKeys_checked_plain _ Hplain).
  destruct (transformKeys_snake_case_fields fields Hnd Hwire)
    as (transformed & -> & Hrest).
  by exists transformed.
Qed.

Lemma transformKeys_keeps_snake_case_fields_witness :
  ∃ transformed,
    _transformKeysToCamelCase_checked
      (JObject [("run_id", JString "r1"); ("started_at", JNull)]) =
      Some (JObject transformed) ∧
    transformed.*1 = ["runId"; "startedAt"].
Proof.
  destruct (transformKeys_keeps_snake_case_fields
              [("run_id", JString "r1"); ("started_at", JNull)])
    as (transformed & Heq & Hnames & _).
  - reflexivity.
  - cbn. repeat constructor; rewrite ?elem_of_cons, ?elem_of_nil;
      intuition discriminate.
  - by repeat constructor.
  - by exists transformed.
Defined.

(** X19: two keys make [_transformKeysToCamelCase] behave differently.  An
    object with an own property [constructor] is returned exactly as it
    came, its other keys untranslated and its values untransformed; an
    object without that key but with an own property [hasOwnProperty] makes
    the transformation throw; and the transformation throws only on
    documents that hold one of the two keys somewhere. *)
Theorem transformKeys_shadowed_properties :
  (∀ fields, "constructor" ∈ fields.*1 →
     _transformKeysToCamelCase_checked (JObject fields) = Some (JObject fields)) ∧
  (∀ fields, ("constructor" ∉ fields.*1) → "hasOwnProperty" ∈ fields.*1 →
     _transformKeysToCamelCase_checked (JObject fields) = None) ∧
  (∀ obj, _transformKeysToCamelCase_checked obj = None → plain_keys obj = false).
Proof.
  split; [| split].
  - intros fields Hc. cbn [_transformKeysToCamelCase_checked]. unfold has_own.
    by rewrite bool_decide_eq_true_2.
  - intros fields Hc Hh. cbn [_transformKeysToCamelCase_checked]. unfold has_own.
    by rewrite bool_decide_eq_false_2, bool_decide_eq_true_2.
  - intros obj Hthrows. destruct (plain_keys obj) eqn:Hplain; [| done].
    rewrite transformKeys_checked_plain in Hthrows by done. discriminate.
Qed.

Lemma transformKeys_shadowed_properties_witness :
  _transformKeysToCamelCase_checked hostile_document = Some hostile_document.
Proof.
  destruct transformKeys_shadowed_properties as (Hsame & _ & _).
  apply Hsame. apply list_elem_of_here.
Defined.
